(** * The transaction planner of poetry ([poetry.puzzle.transaction])

    A shallow embedding of [Transaction.calculate_operations], which diffs the
    resolved package set against the installed one and returns the ordered
    list of install, update and uninstall operations, together with the
    properties of the planner stated in the specification. *)

From Stdlib Require Import ZArith.
From stdpp Require Import gmap strings list sorting.

Open Scope Z_scope.

(** ** Priorities

    An operation's priority is a Python number: the integers handed over with
    the resolved packages, and whatever the operation classes default to.
    The sort key negates it, so the type is closed under negation and has
    both infinities of Python's [float]. *)

Inductive Priority :=
| NegInf
| Finite (z : Z)
| PosInf.

#[global] Instance Priority_eq_dec : EqDecision Priority.
Proof. solve_decision. Defined.

(** [-p] *)
Definition priority_neg (p : Priority) : Priority :=
  match p with
  | NegInf => PosInf
  | Finite z => Finite (- z)
  | PosInf => NegInf
  end.

(** [p < q] *)
Definition priority_lt (p q : Priority) : bool :=
  match p, q with
  | NegInf, NegInf => false
  | NegInf, _ => true
  | Finite _, NegInf => false
  | Finite a, Finite b => a <? b
  | Finite _, PosInf => true
  | PosInf, _ => false
  end.

(** ** Python values used by the planner *)

(** Truth value of an optional string ([None] and the empty string are
    false). *)
Definition truthy (s : option string) : bool :=
  match s with
  | Some s => negb (String.eqb s "")
  | None => false
  end.

(** [sorted(l, key=...)], given the key's [<]: Python's sort is stable and
    only ever asks whether one key is less than another.  The stable
    arrangement is built here by insertion from the right: an element goes
    in front of the first one that is not smaller than it. *)
Section Sorted.
Context {A : Type} (lt : A → A → bool).

Fixpoint insort (x : A) (l : list A) : list A :=
  match l with
  | [] => [x]
  | y :: l' => if lt y x then y :: insort x l' else x :: y :: l'
  end.

Definition sorted (l : list A) : list A := foldr insort [] l.
End Sorted.

(** A dependency of a package; the planner reads its name only. *)
Record Dependency := { dep_name : string }.

(** The exception an [assert] raises. *)
Inductive Exception := AssertionError.

Inductive Result (A : Type) :=
| Returns (a : A)
| Raises (e : Exception).
Arguments Returns {A} a.
Arguments Raises {A} e.

(** The attributes of poetry-core's [Package] that the planner and its
    collaborators read.  Versions come from poetry-core as well and stay a
    parameter. *)
Record Package {Version : Type} := {
  name : string;
  version : Version;
  source_type : option string;
  source_url : option string;
  source_reference : option string;
  optional : bool;
  extras : gmap string (list Dependency);
  requires : list Dependency
}.
Arguments Package : clear implicits.

(** What [calculate_operations] takes from outside this module:
    - versions with Python's [==] (decidable equality here) and [<];
    - [Package.is_same_package_as] of poetry-core;
    - [poetry.utils.extras.get_extra_package_names], from the packages, the
      root's extras map and the selected extras to the names these require;
    - the priorities [Install(package)] and [Uninstall(package)] get when the
      caller passes none. *)
Class Collaborators (Version : Type) := {
  version_eq_dec :: EqDecision Version;
  version_lt : Version → Version → bool;
  is_same_package_as : Package Version → Package Version → bool;
  get_extra_package_names :
    list (Package Version) → gmap string (list string) → gset string
    → gset string;
  install_priority : Priority;
  uninstall_priority : Priority
}.

Section Planner.
Context {Version : Type} `{!Collaborators Version}.

(** Modelled from the spec: the operation classes of
    [poetry.installation.operations] (section 3 of the specification): a
    tagged union of the three actions, each with a priority and an optional
    skip reason; [Operation.skip(reason)] sets the latter. *)
Inductive Operation :=
| Install (package : Package Version) (priority : Priority)
    (skip_reason : option string)
| Update (initial_package target_package : Package Version)
    (priority : Priority) (skip_reason : option string)
| Uninstall (package : Package Version) (priority : Priority)
    (skip_reason : option string).

(** Modelled from the spec: [Operation.package], the primary subject of an
    operation, which is the destination package for an update (section 6). *)
Definition package (o : Operation) : Package Version :=
  match o with
  | Install p _ _ => p
  | Update _ p _ _ => p
  | Uninstall p _ _ => p
  end.

Definition priority (o : Operation) : Priority :=
  match o with
  | Install _ p _ => p
  | Update _ _ p _ => p
  | Uninstall _ p _ => p
  end.

Definition skip_reason (o : Operation) : option string :=
  match o with
  | Install _ _ r => r
  | Update _ _ _ r => r
  | Uninstall _ _ r => r
  end.

Definition is_uninstall (o : Operation) : bool :=
  match o with Uninstall _ _ _ => true | _ => false end.

Record Transaction := {
  current_packages : list (Package Version);
  result_packages : list (Package Version * Z);
  installed_packages : list (Package Version);
  root_package : option (Package Version)
}.

(** [Transaction.__init__] *)
Definition Transaction_init (current : list (Package Version))
    (result : list (Package Version * Z))
    (installed : option (list (Package Version)))
    (root : option (Package Version)) : Transaction :=
  {| current_packages := current;
     result_packages := result;
     installed_packages := default [] installed;
     root_package := root |}.

(** The two locals the loops of [calculate_operations] update in place. *)
Record State := {
  operations : list Operation;
  uninstalls : gset string
}.

Definition append (o : Operation) (st : State) : State :=
  {| operations := operations st ++ [o]; uninstalls := uninstalls st |}.

(** [uninstalls.add(p.name); operations.append(Uninstall(p))] *)
Definition uninstall (p : Package Version) (st : State) : State :=
  {| operations := operations st ++ [Uninstall p uninstall_priority None];
     uninstalls := {[name p]} ∪ uninstalls st |}.

Section Calculate.
Variable txn : Transaction.
Variables with_uninstalls synchronize skip_directory : bool.
Variable extras_arg : option (gset string).

(** Lines 46-53. *)
Definition extra_package_names : Result (gset string) :=
  match extras_arg with
  | None => Returns ∅
  | Some selected =>
      match root_package txn with
      | None => Raises AssertionError
      | Some root =>
          Returns (get_extra_package_names
                     (fst <$> result_packages txn)
                     (fmap (M := gmap string) (fmap dep_name) (extras root))
                     selected)
      end
  end.

Variable extra_packages : gset string.

Definition is_unsolicited_extra (result_package : Package Version) : bool :=
  bool_decide (extras_arg ≠ None)
  && (optional result_package
      && bool_decide (name result_package ∉ extra_packages)).

(** The condition of lines 73-88. *)
Definition update_required
    (result_package installed_package : Package Version) : bool :=
  bool_decide (version result_package ≠ version installed_package)
  || ((truthy (source_type installed_package)
       || bool_decide (source_type result_package ≠ Some "legacy"%string))
      && negb (is_same_package_as result_package installed_package)).

(** The inner loop of lines 62-97 stops at the first installed package of
    the same name. *)
Definition installed_match (result_package : Package Version)
    : option (Package Version) :=
  List.find
    (λ installed_package,
       bool_decide (name result_package = name installed_package))
    (installed_packages txn).

(** One iteration of the loop over the result packages (lines 56-106). *)
Definition classify (st : State) (entry : Package Version * Z) : State :=
  let '(result_package, prio) := entry in
  match installed_match result_package with
  | Some installed_package =>
      if is_unsolicited_extra result_package then
        uninstall installed_package st
      else if update_required result_package installed_package then
        append (Update installed_package result_package (Finite prio) None)
               st
      else
        append (Install result_package install_priority
                  (Some "Already installed"%string)) st
  | None =>
      if skip_directory
         && bool_decide (source_type result_package
                         = Some "directory"%string)
      then st
      else
        append (Install result_package (Finite prio)
                  (if is_unsolicited_extra result_package
                   then Some "Not required"%string else None)) st
  end.

(** One iteration of the loop over the current packages (lines 109-119):
    every installed package of the name is uninstalled, there is no
    [break]. *)
Definition sweep_installed (current_package : Package Version) (st : State)
    (installed_package : Package Version) : State :=
  if bool_decide (name installed_package = name current_package)
  then uninstall installed_package st
  else st.

Definition sweep (st : State) (current_package : Package Version) : State :=
  let found :=
    existsb
      (λ entry : Package Version * Z,
         bool_decide (name current_package = name entry.1))
      (result_packages txn) in
  if found then st
  else foldl (sweep_installed current_package) st (installed_packages txn).

Definition result_package_names : gset string :=
  list_to_set ((λ entry : Package Version * Z, name entry.1)
                 <$> result_packages txn).

Definition preserved_package_names : gset string :=
  {["pip"%string]} ∖ result_package_names.

Definition is_root (installed_package : Package Version) : bool :=
  match root_package txn with
  | Some root => bool_decide (name installed_package = name root)
  | None => false
  end.

(** One iteration of the loop of lines 129-144. *)
Definition synchronize_installed (st : State)
    (installed_package : Package Version) : State :=
  if bool_decide (name installed_package ∈ uninstalls st) then st
  else if is_root installed_package then st
  else if bool_decide (name installed_package ∈ preserved_package_names)
  then st
  else if bool_decide (name installed_package ∉ result_package_names)
  then uninstall installed_package st
  else st.

Definition classified (st : State) : State :=
  foldl classify st (result_packages txn).

Definition swept (st : State) : State :=
  foldl sweep st (current_packages txn).

Definition synchronized (st : State) : State :=
  foldl synchronize_installed st (installed_packages txn).

(** Lines 108-144. *)
Definition removals (st : State) : State :=
  if with_uninstalls then
    let st := swept st in
    if synchronize then synchronized st else st
  else st.
End Calculate.

(** The key of line 148 and Python's [<] on such tuples: the first
    component that differs decides. *)
Definition sort_key (o : Operation) : Priority * string * Version :=
  (priority_neg (priority o), name (package o), version (package o)).

Definition key_lt (k1 k2 : Priority * string * Version) : bool :=
  let '(p1, n1, v1) := k1 in
  let '(p2, n2, v2) := k2 in
  if bool_decide (p1 ≠ p2) then priority_lt p1 p2
  else if bool_decide (n1 ≠ n2) then String.ltb n1 n2
  else if bool_decide (v1 ≠ v2) then version_lt v1 v2
  else false.

Definition operation_lt (o1 o2 : Operation) : bool :=
  key_lt (sort_key o1) (sort_key o2).

Definition initial_state : State := {| operations := []; uninstalls := ∅ |}.

(** The operations in the order the loops append them. *)
Definition accumulated (txn : Transaction)
    (with_uninstalls synchronize skip_directory : bool)
    (extras_arg : option (gset string)) (extra_packages : gset string)
    : State :=
  removals txn with_uninstalls synchronize
    (classified txn skip_directory extras_arg extra_packages initial_state).

Definition calculate_operations (txn : Transaction)
    (with_uninstalls synchronize skip_directory : bool)
    (extras_arg : option (gset string)) : Result (list Operation) :=
  match extra_package_names txn extras_arg with
  | Raises e => Raises e
  | Returns extra_packages =>
      Returns
        (sorted operation_lt
           (operations
              (accumulated txn with_uninstalls synchronize skip_directory
                 extras_arg extra_packages)))
  end.
End Planner.
Arguments Operation : clear implicits.
Arguments Transaction : clear implicits.
Arguments State : clear implicits.

(** ** Notions used in the statements *)

Section Notions.
Context {Version : Type} `{!Collaborators Version}.

(** Python's [<] on versions is a strict total order. *)
Definition TotalVersionOrder : Prop :=
  (∀ v : Version, version_lt v v = false)
  ∧ (∀ a b c : Version,
       version_lt a b = true → version_lt b c = true → version_lt a c = true)
  ∧ (∀ a b : Version, a ≠ b → version_lt a b = true ∨ version_lt b a = true).

(** [o1] may stand before [o2] in the plan: higher priority first, then the
    smaller name, then the smaller version. *)
Definition precedes (o1 o2 : Operation Version) : Prop :=
  priority_lt (priority o2) (priority o1) = true
  ∨ (priority o1 = priority o2
     ∧ (String.ltb (name (package o1)) (name (package o2)) = true
        ∨ (name (package o1) = name (package o2)
           ∧ (version (package o1) = version (package o2)
              ∨ version_lt (version (package o1)) (version (package o2))
                = true)))).

(** The operation is about the package called [n]. *)
Definition targets (n : string) (o : Operation Version) : Prop :=
  name (package o) = n.

#[global] Instance targets_dec n o : Decision (targets n o).
Proof. unfold targets. apply _. Defined.

(** [st'] is [st] with further operations appended, all satisfying [Q]. *)
Definition emitted (Q : Operation Version → Prop) (st st' : State Version)
    : Prop :=
  ∃ ops, operations st' = operations st ++ ops ∧ Forall Q ops.

(** What one result entry contributes to the plan. *)
Definition classify_ops (txn : Transaction Version) (skip_directory : bool)
    (extras_arg : option (gset string)) (extra_packages : gset string)
    (entry : Package Version * Z) : list (Operation Version) :=
  operations
    (classify txn skip_directory extras_arg extra_packages initial_state entry).

(** An uninstall of the sweep over the current packages. *)
Definition dropped (txn : Transaction Version) (o : Operation Version) : Prop :=
  ∃ installed_package current_package,
    o = Uninstall installed_package uninstall_priority None
    ∧ installed_package ∈ installed_packages txn
    ∧ current_package ∈ current_packages txn
    ∧ name installed_package = name current_package
    ∧ name current_package ∉ result_package_names txn.

(** An uninstall of the synchronize sweep. *)
Definition unmanaged (txn : Transaction Version) (o : Operation Version)
    : Prop :=
  ∃ installed_package,
    o = Uninstall installed_package uninstall_priority None
    ∧ installed_package ∈ installed_packages txn
    ∧ is_root txn installed_package = false
    ∧ (name installed_package ∉ preserved_package_names txn)
    ∧ (name installed_package ∉ result_package_names txn).
End Notions.

Section PlanNotions.
Context {Version : Type} `{!Collaborators Version}.

(** The names the operations are about, in order. *)
Definition operation_names (ops : list (Operation Version)) : list string :=
  (λ o, name (package o)) <$> ops.

(** The names of the packages some operation of the list uninstalls. *)
Definition uninstalled_names (ops : list (Operation Version))
    : gset string :=
  list_to_set
    (operation_names (filter (λ o, is_uninstall o = true) ops)).


(** The state with the same names marked and no operation yet. *)
Definition restart (st : State Version) : State Version :=
  {| operations := []; uninstalls := uninstalls st |}.

(** The marked names are those of the uninstalls appended so far. *)
Definition in_sync (st : State Version) : Prop :=
  uninstalls st = uninstalled_names (operations st).

(** No two operations appended so far are about the same name, and each
    is about a marked name or about the name of a result package. *)
Definition tidy (txn : Transaction Version) (st : State Version) : Prop :=
  NoDup (operation_names (operations st))
  ∧ ∀ o, o ∈ operations st →
         name (package o) ∈ uninstalls st
         ∨ name (package o) ∈ result_package_names txn.

(** Two states with the same operations up to their order and the same
    marked names. *)
Definition similar (st st' : State Version) : Prop :=
  operations st ≡ₚ operations st' ∧ uninstalls st = uninstalls st'.

(** Where an operation of a plan comes from: an install is about a result
    package, at the entry's priority when no installed package has its name
    and skipped as already installed otherwise; an update leads from the
    installed match of a result package to that package at the entry's
    priority; an uninstall is about an installed package. *)
Definition justified (txn : Transaction Version) (o : Operation Version)
    : Prop :=
  match o with
  | Install rp p reason =>
      ∃ n, (rp, n) ∈ result_packages txn
           ∧ ((installed_match txn rp = None ∧ p = Finite n
               ∧ (reason = None ∨ reason = Some "Not required"%string))
              ∨ (is_Some (installed_match txn rp) ∧ p = install_priority
                 ∧ reason = Some "Already installed"%string))
  | Update ip rp p reason =>
      ∃ n, (rp, n) ∈ result_packages txn
           ∧ installed_match txn rp = Some ip
           ∧ p = Finite n ∧ reason = None
  | Uninstall ip p reason =>
      ip ∈ installed_packages txn ∧ p = uninstall_priority ∧ reason = None
  end.
End PlanNotions.

(** ** The collaborators used in the examples *)

(** Modelled from the spec: [get_extra_package_names] of
    [poetry.utils.extras], which the specification describes by its result
    only: the transitive set of package names required by the requested
    extras.  The names listed under the selected extras are closed under the
    requirements of the listed packages. *)
Section Extras.
Context {Version : Type}.

Definition extra_seeds (extras_map : gmap string (list string))
    (selected : gset string) : gset string :=
  ⋃ ((λ extra, list_to_set (default [] (extras_map !! extra)))
       <$> elements selected).

Definition required_by (packages : list (Package Version))
    (names : gset string) : gset string :=
  ⋃ ((λ p, if bool_decide (name p ∈ names)
            then list_to_set (dep_name <$> requires p) else (∅ : gset string))
       <$> packages).

Fixpoint extras_closure (fuel : nat) (packages : list (Package Version))
    (names : gset string) : gset string :=
  match fuel with
  | O => names
  | S fuel =>
      extras_closure fuel packages (names ∪ required_by packages names)
  end.

Definition reference_get_extra_package_names
    (packages : list (Package Version))
    (extras_map : gmap string (list string)) (selected : gset string)
    : gset string :=
  extras_closure (S (length packages)) packages
    (extra_seeds extras_map selected).
End Extras.

(** Two references agree when both are absent or empty, or both are given
    and one is the beginning of the other. *)
Definition same_reference (r1 r2 : option string) : bool :=
  if truthy r1 || truthy r2 then
    match r1, r2 with
    | Some s1, Some s2 =>
        truthy r1 && truthy r2 && (String.prefix s1 s2 || String.prefix s2 s1)
    | _, _ => false
    end
  else true.

(** Modelled from the spec: [Package.is_same_package_as] (section 3), which
    compares the name and the source descriptors of two packages whatever
    their versions are.  As in poetry-core, the names and the source types
    must agree; two packages without source type are then the same, and
    otherwise the urls must agree when one is given, and the references
    too. *)
Definition reference_is_same_package_as (p q : Package Z) : bool :=
  bool_decide (name p = name q)
  && bool_decide (source_type p = source_type q)
  && (negb (truthy (source_type p))
      || ((negb (truthy (source_url p) || truthy (source_url q))
           || bool_decide (source_url p = source_url q))
          && same_reference (source_reference p) (source_reference q))).

(** Versions as integers, installs at priority 0 and uninstalls at
    infinity when the caller passes no priority. *)
Definition reference_collaborators : Collaborators Z := {|
  version_lt := Z.ltb;
  is_same_package_as := reference_is_same_package_as;
  get_extra_package_names := reference_get_extra_package_names;
  install_priority := Finite 0;
  uninstall_priority := PosInf
|}.

(** A package by name, version, source type and url, and whether it is
    optional. *)
Definition pkg (n : string) (v : Z) (ty url : option string) (opt : bool)
    : Package Z :=
  {| name := n; version := v; source_type := ty; source_url := url;
     source_reference := None; optional := opt; extras := ∅;
     requires := [] |}.

(** The packages of the examples: the project itself, pip, a library in two
    versions and as served by a legacy index, an optional library, an
    optional package from a directory, and a package nobody asked for. *)
Definition project : Package Z := pkg "project" 1 None None false.
Definition pip : Package Z := pkg "pip" 24 None None false.
Definition lib1 : Package Z := pkg "lib" 1 None None false.
Definition lib2 : Package Z := pkg "lib" 2 None None false.
Definition lib1_legacy : Package Z :=
  pkg "lib" 1 (Some "legacy"%string)
    (Some "https://legacy.example/simple"%string) false.
Definition opt1 : Package Z := pkg "opt" 1 None None true.
Definition opt2 : Package Z := pkg "opt" 2 None None true.
Definition local_opt : Package Z :=
  pkg "local" 1 (Some "directory"%string) (Some "/src/local"%string) true.
Definition junk : Package Z := pkg "junk" 3 None None false.

(** The library from a git repository, the directory package in an older
    version, and an environment in which a bit of everything happens: one
    library is upgraded, an optional one is installed without being asked
    for, another optional one is new, one package left the resolution, and
    pip and the project itself are installed too. *)
Definition lib1_git : Package Z :=
  pkg "lib" 1 (Some "git"%string)
    (Some "https://git.example/lib.git"%string) false.
Definition local_old : Package Z :=
  pkg "local" 0 (Some "directory"%string) (Some "/src/local"%string) true.
Definition busy : Transaction Z :=
  Transaction_init [lib1; junk] [(lib2, 7); (opt1, 2); (local_opt, 4)]
    (Some [lib1; junk; pip; project; opt2]) (Some project).

(** * Properties *)

(** ** The order of priorities and of names *)

Lemma priority_lt_irrefl p : priority_lt p p = false.
Proof. destruct p; simpl; auto using Z.ltb_irrefl. Qed.

Lemma priority_lt_trans p q r :
  priority_lt p q = true → priority_lt q r = true → priority_lt p r = true.
Proof.
  destruct p, q, r; simpl; try done.
  rewrite !Z.ltb_lt. lia.
Qed.

Lemma priority_lt_total p q :
  p ≠ q → priority_lt p q = true ∨ priority_lt q p = true.
Proof.
  destruct p as [|a|], q as [|b|]; simpl; auto; try done.
  intros Hne. rewrite !Z.ltb_lt.
  destruct (Z.lt_trichotomy a b) as [?|[->|?]]; auto. done.
Qed.

Lemma priority_neg_inj p q : priority_neg p = priority_neg q → p = q.
Proof. destruct p, q; simpl; try done. intros [= ?]. f_equal. lia. Qed.

Lemma priority_lt_neg p q :
  priority_lt (priority_neg p) (priority_neg q) = priority_lt q p.
Proof.
  destruct p as [|a|], q as [|b|]; simpl; try done.
  destruct (Z.ltb_spec (- a) (- b)), (Z.ltb_spec b a); auto; lia.
Qed.

Lemma string_ltb_leb a b : String.ltb a b = negb (String.leb b a).
Proof.
  unfold String.ltb, String.leb. rewrite (String.compare_antisym b a).
  by destruct (String.compare a b).
Qed.

Lemma string_ltb_irrefl a : String.ltb a a = false.
Proof.
  rewrite string_ltb_leb.
  destruct (String.leb_total a a) as [-> | ->]; done.
Qed.

Lemma string_ltb_trans a b c :
  String.ltb a b = true → String.ltb b c = true → String.ltb a c = true.
Proof.
  rewrite !string_ltb_leb, !negb_true_iff.
  intros Hba Hcb. destruct (String.leb c a) eqn:Hca; [|done].
  assert (String.le a b) as Hab.
  { destruct (String.leb_total a b) as [H|H]; [by apply Is_true_true|].
    congruence. }
  assert (String.le c b) as Hcb'.
  { transitivity a; [by apply Is_true_true|done]. }
  apply Is_true_true in Hcb'. unfold String.le in *. congruence.
Qed.

Lemma string_ltb_total a b :
  a ≠ b → String.ltb a b = true ∨ String.ltb b a = true.
Proof.
  intros Hne. rewrite !string_ltb_leb.
  destruct (String.leb a b) eqn:Hab, (String.leb b a) eqn:Hba; auto.
  destruct Hne. by apply String.leb_antisym.
Qed.

(** ** Sorting by a key *)

Section SortedFacts.
Context {A : Type} (lt : A → A → bool).

Lemma insort_Permutation x l : insort lt x l ≡ₚ x :: l.
Proof.
  induction l as [|y l IH]; simpl; [done|].
  destruct (lt y x); [|done].
  rewrite IH. apply Permutation_swap.
Qed.

Lemma sorted_Permutation l : sorted lt l ≡ₚ l.
Proof.
  induction l as [|x l IH]; simpl; [done|].
  by rewrite insort_Permutation, IH.
Qed.

Hypothesis lt_asym : ∀ x y, lt x y = true → lt y x = false.

Lemma insort_HdRel x y l :
  lt y x = true → HdRel (λ a b, lt b a = false) y l →
  HdRel (λ a b, lt b a = false) y (insort lt x l).
Proof.
  intros Hyx Hhd. destruct l as [|z l]; simpl.
  - constructor. by apply lt_asym.
  - destruct (lt z x); constructor.
    + by inversion Hhd.
    + by apply lt_asym.
Qed.

Lemma insort_Sorted x l :
  Sorted (λ a b, lt b a = false) l →
  Sorted (λ a b, lt b a = false) (insort lt x l).
Proof.
  induction 1 as [|y l Hl IH Hhd]; simpl.
  - repeat constructor.
  - destruct (lt y x) eqn:Hyx.
    + constructor; [done|]. by apply insort_HdRel.
    + constructor; [by constructor|]. by constructor.
Qed.

Lemma sorted_Sorted l : Sorted (λ a b, lt b a = false) (sorted lt l).
Proof.
  induction l as [|x l IH]; simpl; [constructor|].
  by apply insort_Sorted.
Qed.
End SortedFacts.

Lemma Sorted_weaken {A} (R1 R2 : relation A) (l : list A) :
  (∀ x y, R1 x y → R2 x y) → Sorted R1 l → Sorted R2 l.
Proof.
  intros HR. induction 1 as [|x l Hl IH Hhd]; constructor; [done|].
  destruct Hhd; constructor; auto.
Qed.

Section KeyOrder.
Context {Version : Type} `{!Collaborators Version}.
Hypothesis version_order : TotalVersionOrder.

Lemma operation_lt_asym (o1 o2 : Operation Version) :
  operation_lt o1 o2 = true → operation_lt o2 o1 = false.
Proof.
  destruct version_order as (Hirr & Htr & Htot).
  unfold operation_lt, sort_key, key_lt.
  repeat case_bool_decide; try congruence; intros Hlt.
  - destruct (priority_lt (priority_neg (priority o2)) _) eqn:Hgt; [|done].
    pose proof (priority_lt_trans _ _ _ Hlt Hgt) as Hpp.
    by rewrite priority_lt_irrefl in Hpp.
  - destruct (String.ltb (name (package o2)) _) eqn:Hgt; [|done].
    pose proof (string_ltb_trans _ _ _ Hlt Hgt) as Hnn.
    by rewrite string_ltb_irrefl in Hnn.
  - destruct (version_lt (version (package o2)) _) eqn:Hgt; [|done].
    pose proof (Htr _ _ _ Hlt Hgt) as Hvv. by rewrite Hirr in Hvv.
Qed.

Lemma operation_lt_false_precedes (o1 o2 : Operation Version) :
  operation_lt o2 o1 = false → precedes o1 o2.
Proof.
  destruct version_order as (Hirr & Htr & Htot).
  unfold operation_lt, sort_key, key_lt, precedes.
  repeat case_bool_decide; intros Hge.
  - left. rewrite priority_lt_neg in Hge.
    destruct (priority_lt_total (priority o1) (priority o2)) as [?|?];
      [congruence|congruence|done].
  - right. split; [symmetry; eauto using priority_neg_inj|]. left.
    destruct (string_ltb_total (name (package o1)) (name (package o2)))
      as [?|?]; [congruence|done|congruence].
  - right. split; [symmetry; eauto using priority_neg_inj|]. right.
    split; [done|]. right.
    destruct (Htot (version (package o1)) (version (package o2)))
      as [?|?]; [congruence|done|congruence].
  - right. split; [symmetry; eauto using priority_neg_inj|]. right.
    split; [done|]. by left.
Qed.

Lemma precedes_trans (o1 o2 o3 : Operation Version) :
  precedes o1 o2 → precedes o2 o3 → precedes o1 o3.
Proof.
  destruct version_order as (Hirr & Htr & Htot).
  unfold precedes.
  intros [Hp|[Hp [Hn|[Hn [Hv|Hv]]]]] [Hq|[Hq [Hm|[Hm [Hw|Hw]]]]];
    rewrite ?Hp, ?Hn, ?Hv in *; rewrite <-?Hq, <-?Hm, <-?Hw in *;
    eauto 10 using priority_lt_trans, string_ltb_trans.
Qed.

Lemma sorted_operations_precede (ops : list (Operation Version)) :
  StronglySorted precedes (sorted operation_lt ops).
Proof.
  apply Sorted_StronglySorted; [intros ???; apply precedes_trans|].
  eapply Sorted_weaken; [|apply sorted_Sorted, operation_lt_asym].
  intros o1 o2. apply operation_lt_false_precedes.
Qed.
End KeyOrder.

(** ** The shape of the accumulated plan *)

Section PlanStructure.
Context {Version : Type} `{!Collaborators Version}.

Lemma emitted_refl Q (st : State Version) : emitted Q st st.
Proof. exists []. by rewrite app_nil_r. Qed.

Lemma emitted_trans Q (st1 st2 st3 : State Version) :
  emitted Q st1 st2 → emitted Q st2 st3 → emitted Q st1 st3.
Proof.
  intros (ops1 & H1 & HQ1) (ops2 & H2 & HQ2). exists (ops1 ++ ops2).
  rewrite H2, H1, <-app_assoc. split; [done|]. by apply Forall_app.
Qed.

Lemma emitted_mono (Q1 Q2 : Operation Version → Prop) st st' :
  (∀ o, Q1 o → Q2 o) → emitted Q1 st st' → emitted Q2 st st'.
Proof.
  intros HQ (ops & H & HQ1). exists ops. split; [done|].
  eapply Forall_impl; eauto.
Qed.

Lemma foldl_emitted {B} Q (f : State Version → B → State Version) l st :
  (∀ x st, x ∈ l → emitted Q st (f st x)) → emitted Q st (foldl f st l).
Proof.
  revert st. induction l as [|x l IH]; intros st Hf; simpl.
  - apply emitted_refl.
  - eapply emitted_trans; [apply Hf; left|].
    apply IH. intros y st' Hy. apply Hf. by right.
Qed.

Lemma uninstall_emitted Q (p : Package Version) st :
  Q (Uninstall p uninstall_priority None) → emitted Q st (uninstall p st).
Proof.
  intros HQ. exists [Uninstall p uninstall_priority None].
  by repeat constructor.
Qed.

Section Phases.
Variable txn : Transaction Version.
Variables with_uninstalls synchronize skip_directory : bool.
Variable extras_arg : option (gset string).
Variable extra_packages : gset string.

Lemma elem_of_result_package_names n :
  n ∈ result_package_names txn
  ↔ ∃ entry, entry ∈ result_packages txn ∧ name entry.1 = n.
Proof.
  unfold result_package_names.
  rewrite elem_of_list_to_set, list_elem_of_fmap.
  split; [intros (entry & -> & Hin)|intros (entry & Hin & <-)]; eauto.
Qed.

Lemma installed_match_Some rp ip :
  installed_match txn rp = Some ip →
  ip ∈ installed_packages txn ∧ name ip = name rp.
Proof.
  unfold installed_match. intros [Hin Hname]%find_some.
  apply bool_decide_eq_true in Hname. by rewrite list_elem_of_In.
Qed.

Lemma installed_match_None rp ip :
  installed_match txn rp = None →
  ip ∈ installed_packages txn → name ip ≠ name rp.
Proof.
  unfold installed_match. intros Hnone Hin%list_elem_of_In Heq.
  pose proof (find_none _ _ Hnone _ Hin) as Hname. simpl in Hname.
  apply bool_decide_eq_false in Hname. by destruct Hname.
Qed.

Lemma classify_operations st entry :
  operations (classify txn skip_directory extras_arg extra_packages st entry)
  = operations st
    ++ classify_ops txn skip_directory extras_arg extra_packages entry.
Proof.
  unfold classify_ops, classify. destruct entry as [rp prio].
  destruct (installed_match txn rp) as [ip|].
  - repeat (case_match; simpl; try done).
  - repeat (case_match; simpl; try done). by rewrite app_nil_r.
Qed.

Lemma classified_operations st :
  operations (classified txn skip_directory extras_arg extra_packages st)
  = operations st
    ++ (result_packages txn
          ≫= classify_ops txn skip_directory extras_arg extra_packages).
Proof.
  unfold classified. revert st.
  induction (result_packages txn) as [|entry l IH]; intros st; simpl.
  - by rewrite app_nil_r.
  - rewrite IH, classify_operations, <-app_assoc. done.
Qed.

Lemma classify_ops_targets entry o :
  o ∈ classify_ops txn skip_directory extras_arg extra_packages entry →
  targets (name entry.1) o.
Proof.
  unfold classify_ops, classify, targets. destruct entry as [rp prio].
  destruct (installed_match txn rp) as [ip|] eqn:Hm; simpl.
  - apply installed_match_Some in Hm as [_ Hname].
    repeat (case_match; simpl);
      intros ->%list_elem_of_singleton; simpl; done.
  - repeat (case_match; simpl); try by intros ?%elem_of_nil.
    all: intros ->%list_elem_of_singleton; simpl; done.
Qed.

Lemma sweep_emitted st current_package :
  current_package ∈ current_packages txn →
  emitted (dropped txn) st (sweep txn st current_package).
Proof.
  intros Hcur. unfold sweep.
  destruct (existsb _ _) eqn:Hfound; [apply emitted_refl|].
  assert (name current_package ∉ result_package_names txn) as Hnot.
  { rewrite elem_of_result_package_names. intros (entry & Hin & Hname).
    apply not_true_iff_false in Hfound. apply Hfound.
    apply existsb_exists. exists entry.
    rewrite <-list_elem_of_In. split; [done|]. by apply bool_decide_eq_true. }
  apply foldl_emitted. intros ip st' Hin. unfold sweep_installed.
  case_bool_decide; [|apply emitted_refl].
  apply uninstall_emitted. by exists ip, current_package.
Qed.

Lemma swept_emitted st : emitted (dropped txn) st (swept txn st).
Proof. apply foldl_emitted. intros. by apply sweep_emitted. Qed.

Lemma synchronized_emitted st :
  emitted (unmanaged txn) st (synchronized txn st).
Proof.
  apply foldl_emitted. intros ip st' Hin. unfold synchronize_installed.
  case_bool_decide; [apply emitted_refl|].
  destruct (is_root txn ip) eqn:Hroot; [apply emitted_refl|].
  case_bool_decide; [apply emitted_refl|].
  case_bool_decide; [|apply emitted_refl].
  apply uninstall_emitted. by exists ip.
Qed.

Lemma removals_emitted st :
  emitted (λ o, with_uninstalls = true ∧ (dropped txn o ∨ unmanaged txn o))
    st (removals txn with_uninstalls synchronize st).
Proof.
  unfold removals. destruct with_uninstalls; [|apply emitted_refl].
  assert (emitted (λ o, true = true ∧ (dropped txn o ∨ unmanaged txn o))
            st (swept txn st)) as Hswept.
  { eapply emitted_mono; [|apply swept_emitted]. naive_solver. }
  destruct synchronize; [|done].
  eapply emitted_trans; [done|].
  eapply emitted_mono; [|apply synchronized_emitted]. naive_solver.
Qed.

(** The plan before sorting: the contributions of the result entries in
    order, then the uninstalls of the two sweeps. *)
Lemma accumulated_operations :
  ∃ removed,
    operations (accumulated txn with_uninstalls synchronize skip_directory
                  extras_arg extra_packages)
    = (result_packages txn
         ≫= classify_ops txn skip_directory extras_arg extra_packages)
      ++ removed
    ∧ Forall (λ o, with_uninstalls = true
                   ∧ (dropped txn o ∨ unmanaged txn o)) removed.
Proof.
  unfold accumulated.
  destruct (removals_emitted
              (classified txn skip_directory extras_arg extra_packages
                 initial_state)) as (removed & Hops & Hall).
  exists removed. split; [|done].
  by rewrite Hops, classified_operations.
Qed.

Lemma removed_not_in_result o :
  dropped txn o ∨ unmanaged txn o →
  is_uninstall o = true ∧ name (package o) ∉ result_package_names txn.
Proof.
  intros [(ip & cp & -> & _ & _ & Hname & Hnot)|(ip & -> & _ & _ & _ & Hnot)];
    simpl; [by rewrite Hname|done].
Qed.

Lemma classified_in_result o :
  o ∈ result_packages txn
        ≫= classify_ops txn skip_directory extras_arg extra_packages →
  name (package o) ∈ result_package_names txn.
Proof.
  intros (entry & Ho & Hin)%list_elem_of_bind.
  apply classify_ops_targets in Ho.
  apply elem_of_result_package_names. by exists entry.
Qed.
End Phases.

Lemma calculate_operations_Returns (txn : Transaction Version)
    with_uninstalls synchronize skip_directory extras_arg out :
  calculate_operations txn with_uninstalls synchronize skip_directory
    extras_arg = Returns out →
  ∃ extra_packages,
    extra_package_names txn extras_arg = Returns extra_packages
    ∧ out = sorted operation_lt
              (operations
                 (accumulated txn with_uninstalls synchronize skip_directory
                    extras_arg extra_packages)).
Proof.
  unfold calculate_operations.
  destruct (extra_package_names txn extras_arg) as [ep|]; [|done].
  intros [= <-]. by exists ep.
Qed.
End PlanStructure.

Lemma filter_none {A} (P : A → Prop) `{!∀ x, Decision (P x)} (l : list A) :
  (∀ x, x ∈ l → ¬ P x) → filter P l = [].
Proof.
  induction l as [|x l IH]; intros HP; [done|].
  rewrite filter_cons_False by (apply HP; left).
  apply IH. intros y Hy. apply HP. by right.
Qed.

Lemma filter_all {A} (P : A → Prop) `{!∀ x, Decision (P x)} (l : list A) :
  (∀ x, x ∈ l → P x) → filter P l = l.
Proof.
  induction l as [|x l IH]; intros HP; [done|].
  rewrite filter_cons_True by (apply HP; left).
  f_equal. apply IH. intros y Hy. apply HP. by right.
Qed.

Section PlanContents.
Context {Version : Type} `{!Collaborators Version}.
Variable txn : Transaction Version.
Variables with_uninstalls synchronize skip_directory : bool.
Variable extras_arg : option (gset string).
Variable out : list (Operation Version).
Hypothesis plan :
  calculate_operations txn with_uninstalls synchronize skip_directory
    extras_arg = Returns out.

(** The returned plan rearranges what the loops appended. *)
Lemma plan_Permutation :
  ∃ extra_packages removed,
    extra_package_names txn extras_arg = Returns extra_packages
    ∧ out ≡ₚ (result_packages txn
                ≫= classify_ops txn skip_directory extras_arg extra_packages)
             ++ removed
    ∧ Forall (λ o, with_uninstalls = true
                   ∧ (dropped txn o ∨ unmanaged txn o)) removed.
Proof.
  destruct (calculate_operations_Returns _ _ _ _ _ _ plan)
    as (ep & Hep & ->).
  destruct (accumulated_operations txn with_uninstalls synchronize
              skip_directory extras_arg ep) as (removed & Hops & Hall).
  exists ep, removed. split; [done|]. split; [|done].
  by rewrite sorted_Permutation, Hops.
Qed.

(** For name-unique result packages, the operations of the plan about one
    of them are what its own entry contributed. *)
Lemma plan_for_result_entry entry extra_packages :
  NoDup ((λ e : Package Version * Z, name e.1) <$> result_packages txn) →
  entry ∈ result_packages txn →
  extra_package_names txn extras_arg = Returns extra_packages →
  filter (targets (name entry.1)) out
  ≡ₚ classify_ops txn skip_directory extras_arg extra_packages entry.
Proof.
  intros Hnodup Hin Hep.
  destruct plan_Permutation as (ep & removed & Hep' & Hperm & Hall).
  assert (ep = extra_packages) as -> by congruence.
  rewrite Hperm, filter_app.
  assert (filter (targets (name entry.1)) removed = []) as ->.
  { apply filter_none. intros o Ho Htarget.
    rewrite Forall_forall in Hall. destruct (Hall o Ho) as [_ Hrem].
    apply removed_not_in_result in Hrem as [_ Hnot]. apply Hnot.
    apply elem_of_result_package_names. by exists entry. }
  rewrite app_nil_r. clear Hperm Hall Hep Hep'.
  induction (result_packages txn) as [|e l IH]; [by apply elem_of_nil in Hin|].
  rewrite fmap_cons in Hnodup. apply NoDup_cons in Hnodup as [Hfresh Hnodup].
  rewrite bind_cons, filter_app.
  apply elem_of_cons in Hin as [->|Hin].
  - rewrite filter_all by (intros o; apply classify_ops_targets).
    rewrite (filter_none _ (l ≫= _)); [by rewrite app_nil_r|].
    intros o (e' & Ho & He')%list_elem_of_bind Htarget.
    apply classify_ops_targets in Ho. apply Hfresh.
    apply list_elem_of_fmap. exists e'. split; [|done].
    unfold targets in *. congruence.
  - rewrite filter_none; [by apply IH|].
    intros o Ho%classify_ops_targets Htarget. apply Hfresh.
    apply list_elem_of_fmap. exists entry. split; [|done].
    unfold targets in *. congruence.
Qed.
End PlanContents.

(** ** What one result entry contributes *)

Section Classification.
Context {Version : Type} `{!Collaborators Version}.
Variable txn : Transaction Version.
Variable skip_directory : bool.
Variable extras_arg : option (gset string).
Variable extra_packages : gset string.

Lemma classify_ops_unsolicited rp prio ip :
  installed_match txn rp = Some ip →
  is_unsolicited_extra extras_arg extra_packages rp = true →
  classify_ops txn skip_directory extras_arg extra_packages (rp, prio)
  = [Uninstall ip uninstall_priority None].
Proof. unfold classify_ops, classify. by intros -> ->. Qed.

Lemma classify_ops_update rp prio ip :
  installed_match txn rp = Some ip →
  is_unsolicited_extra extras_arg extra_packages rp = false →
  update_required rp ip = true →
  classify_ops txn skip_directory extras_arg extra_packages (rp, prio)
  = [Update ip rp (Finite prio) None].
Proof. unfold classify_ops, classify. by intros -> -> ->. Qed.

Lemma classify_ops_installed rp prio ip :
  installed_match txn rp = Some ip →
  is_unsolicited_extra extras_arg extra_packages rp = false →
  update_required rp ip = false →
  classify_ops txn skip_directory extras_arg extra_packages (rp, prio)
  = [Install rp install_priority (Some "Already installed"%string)].
Proof. unfold classify_ops, classify. by intros -> -> ->. Qed.

Lemma classify_ops_new rp prio :
  installed_match txn rp = None →
  skip_directory && bool_decide (source_type rp = Some "directory"%string)
  = false →
  classify_ops txn skip_directory extras_arg extra_packages (rp, prio)
  = [Install rp (Finite prio)
       (if is_unsolicited_extra extras_arg extra_packages rp
        then Some "Not required"%string else None)].
Proof. unfold classify_ops, classify. by intros -> ->. Qed.

Lemma classify_ops_skipped rp prio :
  installed_match txn rp = None →
  skip_directory && bool_decide (source_type rp = Some "directory"%string)
  = true →
  classify_ops txn skip_directory extras_arg extra_packages (rp, prio) = [].
Proof. unfold classify_ops, classify. by intros -> ->. Qed.

(** Among name-unique installed packages, the match of a result package is
    the installed package of its name. *)
Lemma installed_match_unique rp ip :
  NoDup (name <$> installed_packages txn) →
  ip ∈ installed_packages txn → name ip = name rp →
  installed_match txn rp = Some ip.
Proof.
  unfold installed_match.
  induction (installed_packages txn) as [|p l IH]; intros Hnodup Hin Hname.
  - by apply elem_of_nil in Hin.
  - rewrite fmap_cons in Hnodup. apply NoDup_cons in Hnodup as [Hfresh Hl].
    simpl. case_bool_decide as Hp.
    + apply elem_of_cons in Hin as [->|Hin]; [done|].
      destruct Hfresh. apply list_elem_of_fmap. exists ip.
      split; [congruence|done].
    + apply elem_of_cons in Hin as [->|Hin]; [congruence|]. by apply IH.
Qed.

(** Only an unsolicited extra is uninstalled by classification. *)
Lemma classify_ops_solicited rp prio o :
  is_unsolicited_extra extras_arg extra_packages rp = false →
  o ∈ classify_ops txn skip_directory extras_arg extra_packages (rp, prio) →
  is_uninstall o = false.
Proof.
  unfold classify_ops, classify. intros ->.
  repeat case_match; simpl; try by intros ?%elem_of_nil.
  all: by intros ->%list_elem_of_singleton.
Qed.

End Classification.

(** * The claims of the specification *)

Section Claims.
Context {Version : Type} `{!Collaborators Version}.

(** C1, as amended.  Let [n] be "pip" or the name of the given root
    package.  The synchronize sweep never uninstalls a package called [n];
    the classification of the result packages and the sweep over the current
    packages have no such guard.  Hence, whatever [synchronize] is: when no
    result package called [n] is an unsolicited extra and, with
    [with_uninstalls] set, every current package called [n] has its name in
    the result, no uninstall of the plan is about a package called [n]. *)
Theorem protected_names_kept (txn : Transaction Version)
    with_uninstalls synchronize skip_directory extras_arg out n :
  calculate_operations txn with_uninstalls synchronize skip_directory
    extras_arg = Returns out →
  (n = "pip"%string
   ∨ ∃ root, root_package txn = Some root ∧ name root = n) →
  (∀ extra_packages rp prio,
     extra_package_names txn extras_arg = Returns extra_packages →
     (rp, prio) ∈ result_packages txn → name rp = n →
     is_unsolicited_extra extras_arg extra_packages rp = false) →
  (with_uninstalls = true →
   ∀ current_package,
     current_package ∈ current_packages txn → name current_package = n →
     n ∈ result_package_names txn) →
  ∀ o, o ∈ out → is_uninstall o = true → name (package o) ≠ n.
Proof.
  intros Hplan Hn Hsolicited Hcurrent o Ho Hun <-.
  destruct (plan_Permutation _ _ _ _ _ _ Hplan)
    as (ep & removed & Hep & Hperm & Hall).
  rewrite Hperm in Ho. apply elem_of_app in Ho as [Ho|Ho].
  { apply list_elem_of_bind in Ho as ([rp prio] & Ho & Hin).
    pose proof (classify_ops_targets _ _ _ _ _ _ Ho) as Hname.
    rewrite (classify_ops_solicited txn skip_directory extras_arg ep rp prio
               o) in Hun; [done| |done].
    by apply (Hsolicited ep rp prio). }
  rewrite Forall_forall in Hall. destruct (Hall o Ho) as [Hwith Hrem].
  destruct Hrem as [(ip & cp & -> & _ & Hcp & Hname & Hnot)
                   |(ip & -> & _ & Hroot & Hkeep & Hnot)]; simpl in *.
  - apply Hnot. rewrite <-Hname. apply (Hcurrent Hwith cp); [done|].
    by rewrite Hname.
  - destruct Hn as [Hpip|(root & Hsome & Hname)].
    + apply Hkeep. unfold preserved_package_names.
      apply elem_of_difference. split; [|done].
      by apply elem_of_singleton.
    + unfold is_root in Hroot. rewrite Hsome in Hroot.
      by apply bool_decide_eq_false in Hroot.
Qed.

(** C6.  With extras given and no root package the call raises the
    assertion's error, whatever the other arguments are: it returns no
    plan. *)
Theorem extras_without_root_raises (current : list (Package Version))
    result installed with_uninstalls synchronize skip_directory
    (selected : gset string) :
  calculate_operations (Transaction_init current result installed None)
    with_uninstalls synchronize skip_directory (Some selected)
  = Raises AssertionError.
Proof.
  unfold calculate_operations, extra_package_names, Transaction_init.
  simpl. reflexivity.
Qed.

(** C7.  When versions are totally ordered, the returned plan is the
    accumulated operations rearranged so that of any two of them the earlier
    one has the higher priority, or the same priority and the smaller package
    name, or the same priority and name and a version that is not greater
    ([precedes], where the package of an update is its target). *)
Theorem plan_sorted (txn : Transaction Version)
    with_uninstalls synchronize skip_directory extras_arg out :
  TotalVersionOrder →
  calculate_operations txn with_uninstalls synchronize skip_directory
    extras_arg = Returns out →
  StronglySorted precedes out
  ∧ ∃ extra_packages,
      extra_package_names txn extras_arg = Returns extra_packages
      ∧ out ≡ₚ operations
                 (accumulated txn with_uninstalls synchronize skip_directory
                    extras_arg extra_packages).
Proof.
  intros Horder Hplan.
  apply calculate_operations_Returns in Hplan as (ep & Hep & ->).
  split; [by apply sorted_operations_precede|].
  exists ep. split; [done|]. apply sorted_Permutation.
Qed.

(** C8.  The uninstalls appended by the sweeps after classification (the
    sweep over the current packages and, with [synchronize], the one over
    the installed packages) are about names absent from the result, and
    every operation appended by classification is about a name present in
    it: no name is the subject of both. *)
Theorem sweeps_disjoint_from_classification (txn : Transaction Version)
    with_uninstalls synchronize skip_directory extras_arg extra_packages
    removed o1 o2 :
  operations
    (removals txn with_uninstalls synchronize
       (classified txn skip_directory extras_arg extra_packages
          initial_state))
  = operations
      (classified txn skip_directory extras_arg extra_packages initial_state)
    ++ removed →
  o1 ∈ removed →
  o2 ∈ operations
         (classified txn skip_directory extras_arg extra_packages
            initial_state) →
  is_uninstall o1 = true
  ∧ (name (package o1) ∉ result_package_names txn)
  ∧ (name (package o2) ∈ result_package_names txn)
  ∧ name (package o1) ≠ name (package o2).
Proof.
  intros Hremoved Ho1 Ho2.
  destruct (removals_emitted txn with_uninstalls synchronize
              (classified txn skip_directory extras_arg extra_packages
                 initial_state)) as (removed' & Hops & Hall).
  rewrite Hremoved in Hops. apply app_inv_head in Hops as <-.
  rewrite Forall_forall in Hall. destruct (Hall o1 Ho1) as [_ Hrem].
  apply removed_not_in_result in Hrem as [Hun Hnot].
  rewrite classified_operations in Ho2. simpl in Ho2.
  apply classified_in_result in Ho2.
  repeat split; [done..|]. congruence.
Qed.

(** C10.  Without [with_uninstalls] the current packages are not read: two
    transactions that differ in them only get the same plan. *)
Theorem current_packages_unread (current1 current2 : list (Package Version))
    result installed root synchronize skip_directory extras_arg :
  calculate_operations (Transaction_init current1 result installed root)
    false synchronize skip_directory extras_arg
  = calculate_operations (Transaction_init current2 result installed root)
      false synchronize skip_directory extras_arg.
Proof.
  unfold calculate_operations, accumulated, removals.
  unfold extra_package_names, classified, Transaction_init. simpl.
  reflexivity.
Qed.
(** C2, as amended.  Let the installed packages be name-unique, let every
    result package have an installed counterpart of its name with the same
    version for which [is_same_package_as] holds, and let no result package be
    an unsolicited extra (as when no extras are given).  Without
    [with_uninstalls], every operation of the plan is then the install of a
    result package, skipped as already installed. *)
Theorem nothing_to_do (txn : Transaction Version)
    synchronize skip_directory extras_arg out :
  NoDup (name <$> installed_packages txn) →
  (∀ rp prio,
     (rp, prio) ∈ result_packages txn →
     ∃ ip, ip ∈ installed_packages txn ∧ name ip = name rp
           ∧ version ip = version rp ∧ is_same_package_as rp ip = true) →
  (∀ extra_packages rp prio,
     extra_package_names txn extras_arg = Returns extra_packages →
     (rp, prio) ∈ result_packages txn →
     is_unsolicited_extra extras_arg extra_packages rp = false) →
  calculate_operations txn false synchronize skip_directory extras_arg
  = Returns out →
  Forall
    (λ o, ∃ rp prio,
       (rp, prio) ∈ result_packages txn
       ∧ o = Install rp install_priority (Some "Already installed"%string))
    out.
Proof.
  intros Hnodup Hcounterpart Hsolicited Hplan.
  destruct (plan_Permutation _ _ _ _ _ _ Hplan)
    as (ep & removed & Hep & Hperm & Hall).
  destruct removed as [|o' removed];
    [|by apply Forall_cons in Hall as [[? _] _]].
  rewrite app_nil_r in Hperm. rewrite Hperm. apply Forall_forall.
  intros o ([rp prio] & Ho & Hin)%list_elem_of_bind.
  destruct (Hcounterpart rp prio Hin) as (ip & Hip & Hname & Hver & Hsame).
  rewrite (classify_ops_installed _ _ _ _ rp prio ip) in Ho.
  - apply list_elem_of_singleton in Ho. by exists rp, prio.
  - by apply installed_match_unique.
  - by eapply Hsolicited.
  - unfold update_required. rewrite Hsame, andb_false_r, orb_false_r.
    apply bool_decide_eq_false. by intros [].
Qed.


(** C4, as amended.  Let the result packages be name-unique and let a result
    package that is no unsolicited extra be matched with an installed package
    of another version.  The one operation of the plan about that name is the
    update from the installed package to the result package at the entry's
    priority; no install and no uninstall is about that name. *)
Theorem version_change_is_one_update (txn : Transaction Version)
    with_uninstalls synchronize skip_directory extras_arg extra_packages out
    rp prio ip :
  NoDup ((λ e : Package Version * Z, name e.1) <$> result_packages txn) →
  (rp, prio) ∈ result_packages txn →
  installed_match txn rp = Some ip →
  version rp ≠ version ip →
  extra_package_names txn extras_arg = Returns extra_packages →
  is_unsolicited_extra extras_arg extra_packages rp = false →
  calculate_operations txn with_uninstalls synchronize skip_directory
    extras_arg = Returns out →
  filter (targets (name rp)) out = [Update ip rp (Finite prio) None].
Proof.
  intros Hnodup Hin Hmatch Hver Hep Hsolicited Hplan.
  apply Permutation_singleton_r.
  rewrite (plan_for_result_entry _ _ _ _ _ _ Hplan (rp, prio) _ Hnodup Hin Hep).
  rewrite (classify_ops_update _ _ _ _ rp prio ip); [done..|].
  unfold update_required. by rewrite bool_decide_eq_true_2.
Qed.

(** C5, as amended.  Let the extras be the empty set, a root package be
    given, and the extras resolver return no name for the empty selection.
    For every optional result package: if an installed package has its name,
    the plan uninstalls the first such installed package; if none has and
    the package is not a directory package left out by [skip_directory], the
    plan has the install of the result package at the entry's priority,
    skipped as not required. *)
Theorem unselected_extras_excluded (txn : Transaction Version)
    with_uninstalls synchronize skip_directory out root rp prio :
  root_package txn = Some root →
  get_extra_package_names (fst <$> result_packages txn)
    (fmap (M := gmap string) (fmap dep_name) (extras root)) ∅ = ∅ →
  (rp, prio) ∈ result_packages txn →
  optional rp = true →
  calculate_operations txn with_uninstalls synchronize skip_directory
    (Some ∅) = Returns out →
  ((∃ ip, ip ∈ installed_packages txn ∧ name ip = name rp) →
   ∃ ip, installed_match txn rp = Some ip
         ∧ ip ∈ installed_packages txn ∧ name ip = name rp
         ∧ Uninstall ip uninstall_priority None ∈ out)
  ∧ ((∀ ip, ip ∈ installed_packages txn → name ip ≠ name rp) →
     ¬ (skip_directory = true ∧ source_type rp = Some "directory"%string) →
     Install rp (Finite prio) (Some "Not required"%string) ∈ out).
Proof.
  intros Hroot Hempty Hin Hopt Hplan.
  destruct (plan_Permutation _ _ _ _ _ _ Hplan)
    as (ep & removed & Hep & Hperm & _).
  unfold extra_package_names in Hep. rewrite Hroot, Hempty in Hep.
  injection Hep as <-.
  assert (is_unsolicited_extra (Some ∅) ∅ rp = true) as Hunsolicited.
  { unfold is_unsolicited_extra. rewrite Hopt.
    by rewrite !bool_decide_eq_true_2 by (done || set_solver). }
  assert (∀ o,
            o ∈ classify_ops txn skip_directory (Some ∅) ∅ (rp, prio) →
            o ∈ out) as Hout.
  { intros o Ho. rewrite Hperm. apply elem_of_app. left.
    apply list_elem_of_bind. by exists (rp, prio). }
  split.
  - intros (ip' & Hip' & Hname').
    destruct (installed_match txn rp) as [ip|] eqn:Hmatch.
    + destruct (installed_match_Some _ _ _ Hmatch) as [Hip Hname].
      exists ip. repeat split; [done..|]. apply Hout.
      rewrite (classify_ops_unsolicited _ _ _ _ rp prio ip) by done.
      by apply list_elem_of_singleton.
    + by destruct (installed_match_None _ _ _ Hmatch Hip').
  - intros Hnone Hkept. apply Hout.
    rewrite classify_ops_new.
    + rewrite Hunsolicited. by apply list_elem_of_singleton.
    + destruct (installed_match txn rp) as [ip|] eqn:Hmatch; [|done].
      destruct (installed_match_Some _ _ _ Hmatch) as [Hip Hname].
      by destruct (Hnone ip).
    + destruct skip_directory; [|done]. simpl.
      apply bool_decide_eq_false. intros Hdir. by apply Hkept.
Qed.

(** C9.  Whenever the extras resolver returns no name for the empty
    selection, some call without [with_uninstalls] returns a plan with an
    uninstall: for an optional result package that is installed and outside
    the closure of the requested extras, classification appends the uninstall
    before [with_uninstalls] is looked at. *)
Theorem uninstall_without_with_uninstalls (v : Version) :
  (∀ packages extras_map,
     get_extra_package_names packages extras_map ∅ = ∅) →
  ∃ (txn : Transaction Version) synchronize skip_directory selected out
    rp prio ip,
    calculate_operations txn false synchronize skip_directory (Some selected)
    = Returns out
    ∧ (rp, prio) ∈ result_packages txn
    ∧ optional rp = true
    ∧ installed_match txn rp = Some ip
    ∧ Uninstall ip uninstall_priority None ∈ out.
Proof.
  intros Hempty.
  pose (p := {| name := "extra"%string; version := v; source_type := None;
                source_url := None; source_reference := None;
                optional := true; extras := ∅; requires := [] |}).
  exists (Transaction_init [] [(p, 0)] (Some [p]) (Some p)).
  exists false, false, ∅, [Uninstall p uninstall_priority None], p, 0, p.
  split; [|repeat split; by try apply list_elem_of_singleton].
  unfold calculate_operations, extra_package_names. simpl.
  rewrite Hempty. reflexivity.
Qed.
End Claims.

(** * Further properties of the planner *)

(** ** Invariants of the loops *)

Section Invariants.
Context {Version : Type} `{!Collaborators Version}.

Lemma foldl_invariant {B} (P : State Version → Prop)
    (f : State Version → B → State Version) l st :
  (∀ x st, x ∈ l → P st → P (f st x)) → P st → P (foldl f st l).
Proof.
  revert st. induction l as [|x l IH]; intros st Hf Hst; simpl; [done|].
  apply IH.
  - intros y st' Hy. apply Hf. by right.
  - apply Hf; [left|done].
Qed.

(** A property every step keeps and one step establishes holds in the
    end. *)
Lemma foldl_reaches {B} (P : State Version → Prop)
    (f : State Version → B → State Version) l x st :
  (∀ y st, P st → P (f st y)) → x ∈ l → (∀ st, P (f st x)) →
  P (foldl f st l).
Proof.
  intros Hkeep Hx Hset. revert st.
  induction l as [|y l IH]; intros st; [by apply elem_of_nil in Hx|].
  simpl. apply elem_of_cons in Hx as [->|Hx]; [|by apply IH].
  apply foldl_invariant; [|apply Hset]. intros z st' _. apply Hkeep.
Qed.

Lemma emitted_elem_of Q (st st' : State Version) o :
  emitted Q st st' → o ∈ operations st → o ∈ operations st'.
Proof.
  intros (ops & -> & _) Ho. apply elem_of_app. by left.
Qed.

Lemma elem_of_uninstalled_names n (ops : list (Operation Version)) :
  n ∈ uninstalled_names ops
  ↔ ∃ o, o ∈ ops ∧ is_uninstall o = true ∧ name (package o) = n.
Proof.
  unfold uninstalled_names, operation_names.
  rewrite elem_of_list_to_set, list_elem_of_fmap. split.
  - intros (o & -> & [Hun Ho]%list_elem_of_filter). by exists o.
  - intros (o & Ho & Hun & <-). exists o. split; [done|].
    by apply list_elem_of_filter.
Qed.

Lemma uninstalled_names_app (ops1 ops2 : list (Operation Version)) :
  uninstalled_names (ops1 ++ ops2)
  = uninstalled_names ops1 ∪ uninstalled_names ops2.
Proof.
  unfold uninstalled_names, operation_names.
  by rewrite filter_app, fmap_app, list_to_set_app_L.
Qed.

Lemma in_sync_initial : in_sync (initial_state (Version := Version)).
Proof. unfold in_sync, uninstalled_names. simpl. done. Qed.

Lemma in_sync_append (o : Operation Version) st :
  is_uninstall o = false → in_sync st → in_sync (append o st).
Proof.
  unfold in_sync. intros Ho Hst. simpl.
  rewrite uninstalled_names_app, <-Hst.
  unfold uninstalled_names.
  rewrite filter_cons_False by congruence. simpl.
  by rewrite union_empty_r_L.
Qed.

Lemma in_sync_uninstall (p : Package Version) st :
  in_sync st → in_sync (uninstall p st).
Proof.
  unfold in_sync. intros Hst. simpl.
  rewrite uninstalled_names_app, <-Hst.
  unfold uninstalled_names.
  rewrite filter_cons_True by done. simpl.
  rewrite union_empty_r_L. apply union_comm_L.
Qed.

Section Loops.
Variable txn : Transaction Version.
Variables with_uninstalls synchronize skip_directory : bool.
Variable extras_arg : option (gset string).
Variable extra_packages : gset string.

Lemma classify_in_sync st entry :
  in_sync st →
  in_sync (classify txn skip_directory extras_arg extra_packages st entry).
Proof.
  intros Hst. unfold classify. destruct entry as [rp prio].
  repeat case_match; auto using in_sync_append, in_sync_uninstall.
Qed.

Lemma sweep_in_sync st current_package :
  in_sync st → in_sync (sweep txn st current_package).
Proof.
  intros Hst. unfold sweep. case_match; [done|].
  apply foldl_invariant; [|done].
  intros ip st' _ Hst'. unfold sweep_installed.
  case_bool_decide; auto using in_sync_uninstall.
Qed.

Lemma synchronize_installed_in_sync st installed_package :
  in_sync st → in_sync (synchronize_installed txn st installed_package).
Proof.
  intros Hst. unfold synchronize_installed.
  repeat case_match; auto using in_sync_uninstall.
Qed.

Lemma removals_in_sync st :
  in_sync st → in_sync (removals txn with_uninstalls synchronize st).
Proof.
  intros Hst. unfold removals, swept, synchronized.
  destruct with_uninstalls; [|done].
  assert (in_sync (foldl (sweep txn) st (current_packages txn))) as Hswept.
  { apply foldl_invariant; [|done]. intros; by apply sweep_in_sync. }
  destruct synchronize; [|done].
  apply foldl_invariant; [|done].
  intros; by apply synchronize_installed_in_sync.
Qed.

Lemma accumulated_in_sync :
  in_sync (accumulated txn with_uninstalls synchronize skip_directory
             extras_arg extra_packages).
Proof.
  unfold accumulated. apply removals_in_sync. unfold classified.
  apply foldl_invariant; [|apply in_sync_initial].
  intros; by apply classify_in_sync.
Qed.

(** The marked names only grow. *)
Lemma classify_marks st entry n :
  n ∈ uninstalls st →
  n ∈ uninstalls
        (classify txn skip_directory extras_arg extra_packages st entry).
Proof.
  intros Hn. unfold classify. destruct entry as [rp prio].
  repeat case_match; simpl; set_solver.
Qed.

Lemma sweep_marks st current_package n :
  n ∈ uninstalls st → n ∈ uninstalls (sweep txn st current_package).
Proof.
  intros Hn. unfold sweep. case_match; [done|].
  apply (foldl_invariant (λ st, n ∈ uninstalls st)); [|done].
  intros ip st' _ Hst'. unfold sweep_installed.
  case_bool_decide; simpl; set_solver.
Qed.

Lemma synchronize_installed_marks st installed_package n :
  n ∈ uninstalls st →
  n ∈ uninstalls (synchronize_installed txn st installed_package).
Proof.
  intros Hn. unfold synchronize_installed.
  repeat case_match; simpl; set_solver.
Qed.

(** The synchronize loop marks every installed package it goes over that
    it has no reason to keep. *)
Lemma synchronized_marks st ip :
  ip ∈ installed_packages txn →
  name ip ∉ result_package_names txn →
  is_root txn ip = false →
  name ip ≠ "pip"%string →
  name ip ∈ uninstalls (synchronized txn st).
Proof.
  intros Hip Hresult Hroot Hpip. unfold synchronized.
  apply (foldl_reaches (λ st, name ip ∈ uninstalls st) _ _ ip); [|done|].
  - intros; by apply synchronize_installed_marks.
  - intros st'. unfold synchronize_installed.
    case_bool_decide; [done|]. rewrite Hroot.
    rewrite bool_decide_eq_false_2.
    + rewrite bool_decide_eq_true_2 by done. simpl.
      apply elem_of_union. left. by apply elem_of_singleton.
    + unfold preserved_package_names.
      intros [Hpip'%elem_of_singleton _]%elem_of_difference. done.
Qed.

Lemma sweep_installed_keeps (current_package : Package Version) st ip
    (o : Operation Version) :
  o ∈ operations st →
  o ∈ operations (sweep_installed current_package st ip).
Proof.
  intros Ho. unfold sweep_installed. case_bool_decide; [|done].
  simpl. apply elem_of_app. by left.
Qed.

Lemma sweep_keeps st current_package (o : Operation Version) :
  o ∈ operations st → o ∈ operations (sweep txn st current_package).
Proof.
  intros Ho. unfold sweep. destruct (existsb _ _); [done|].
  apply (foldl_invariant (λ st, o ∈ operations st)); [|done].
  intros ip st' _. apply sweep_installed_keeps.
Qed.

Lemma synchronize_installed_keeps st ip (o : Operation Version) :
  o ∈ operations st → o ∈ operations (synchronize_installed txn st ip).
Proof.
  intros Ho. unfold synchronize_installed.
  repeat case_match; try done. simpl. apply elem_of_app. by left.
Qed.

Lemma removals_keeps st (o : Operation Version) :
  o ∈ operations st →
  o ∈ operations (removals txn with_uninstalls synchronize st).
Proof.
  intros Ho.
  destruct (removals_emitted txn with_uninstalls synchronize st)
    as (ops & -> & _).
  apply elem_of_app. by left.
Qed.

Lemma result_name_not_found (current_package : Package Version) :
  name current_package ∉ result_package_names txn →
  existsb
    (λ entry : Package Version * Z,
       bool_decide (name current_package = name entry.1))
    (result_packages txn) = false.
Proof.
  intros Hnot. apply not_true_iff_false.
  intros (entry & Hin & Hname)%existsb_exists. apply Hnot.
  apply elem_of_result_package_names. exists entry.
  apply bool_decide_eq_true in Hname. by rewrite list_elem_of_In.
Qed.

(** The sweep over the current packages uninstalls every installed package
    that bears the name of a current package gone from the result. *)
Lemma swept_uninstalls st current_package ip :
  current_package ∈ current_packages txn →
  name current_package ∉ result_package_names txn →
  ip ∈ installed_packages txn →
  name ip = name current_package →
  Uninstall ip uninstall_priority None ∈ operations (swept txn st).
Proof.
  intros Hcp Hresult Hip Hname. unfold swept.
  apply (foldl_reaches
           (λ st, Uninstall ip uninstall_priority None ∈ operations st)
           _ _ current_package); [|done|].
  - intros cp st'. apply sweep_keeps.
  - intros st'. unfold sweep. rewrite result_name_not_found by done.
    apply (foldl_reaches
             (λ st, Uninstall ip uninstall_priority None ∈ operations st)
             _ _ ip); [|done|].
    + intros ip' st''. apply sweep_installed_keeps.
    + intros st''. unfold sweep_installed.
      rewrite bool_decide_eq_true_2 by done. simpl.
      apply elem_of_app. right. by apply list_elem_of_singleton.
Qed.
End Loops.
End Invariants.

(** ** Where the operations of a plan come from *)

Section Provenance.
Context {Version : Type} `{!Collaborators Version}.
Variable txn : Transaction Version.
Variables with_uninstalls synchronize skip_directory : bool.
Variable extras_arg : option (gset string).

Lemma classify_ops_justified extra_packages entry o :
  entry ∈ result_packages txn →
  o ∈ classify_ops txn skip_directory extras_arg extra_packages entry →
  justified txn o.
Proof.
  destruct entry as [rp prio]. intros Hin.
  unfold classify_ops, classify.
  destruct (installed_match txn rp) as [ip|] eqn:Hmatch.
  - destruct (installed_match_Some _ _ _ Hmatch) as [Hip _].
    repeat case_match; simpl; intros ->%list_elem_of_singleton; simpl.
    + done.
    + by exists prio.
    + exists prio. split; [done|]. right. by rewrite Hmatch.
  - repeat case_match; simpl; try by intros ?%elem_of_nil.
    all: intros ->%list_elem_of_singleton; simpl.
    all: exists prio; split; [done|]; left; auto.
Qed.

Lemma removed_justified o :
  dropped txn o ∨ unmanaged txn o → justified txn o.
Proof.
  intros [(ip & cp & -> & Hip & _)|(ip & -> & Hip & _)]; by simpl.
Qed.

Lemma accumulated_justified extra_packages :
  Forall (justified txn)
    (operations
       (accumulated txn with_uninstalls synchronize skip_directory
          extras_arg extra_packages)).
Proof.
  destruct (accumulated_operations txn with_uninstalls synchronize
              skip_directory extras_arg extra_packages)
    as (removed & -> & Hall).
  apply Forall_app. split.
  - apply Forall_forall.
    intros o (entry & Ho & Hin)%list_elem_of_bind.
    by eapply classify_ops_justified.
  - eapply Forall_impl; [done|]. intros o [_ Ho].
    by apply removed_justified.
Qed.

Lemma plan_accumulated out :
  calculate_operations txn with_uninstalls synchronize skip_directory
    extras_arg = Returns out →
  ∃ extra_packages,
    extra_package_names txn extras_arg = Returns extra_packages
    ∧ out ≡ₚ operations
               (accumulated txn with_uninstalls synchronize skip_directory
                  extras_arg extra_packages).
Proof.
  intros (ep & Hep & ->)%calculate_operations_Returns.
  exists ep. split; [done|]. apply sorted_Permutation.
Qed.
End Provenance.

Lemma NoDup_fmap_eq {A B} (f : A → B) (l : list A) x y :
  NoDup (f <$> l) → x ∈ l → y ∈ l → f x = f y → x = y.
Proof.
  induction l as [|z l IH]; intros Hnodup Hx Hy Heq.
  { by apply elem_of_nil in Hx. }
  rewrite fmap_cons in Hnodup. apply NoDup_cons in Hnodup as [Hfresh Hl].
  apply elem_of_cons in Hx as [->|Hx], Hy as [->|Hy]; [done| | |by apply IH].
  - destruct Hfresh. rewrite Heq. by apply list_elem_of_fmap_2.
  - destruct Hfresh. rewrite <-Heq. by apply list_elem_of_fmap_2.
Qed.

(** ** One operation per name *)

Section Tidy.
Context {Version : Type} `{!Collaborators Version}.
Variable txn : Transaction Version.

Lemma tidy_uninstall st (p : Package Version) :
  tidy txn st →
  name p ∉ uninstalls st →
  name p ∉ result_package_names txn →
  tidy txn (uninstall p st).
Proof.
  intros [Hnodup Hnames] Hmark Hresult. split; simpl.
  - unfold operation_names. rewrite fmap_app. apply NoDup_app.
    split; [done|]. split; [|apply NoDup_singleton].
    intros n (o & -> & Ho)%list_elem_of_fmap Hn. simpl in Hn.
    apply list_elem_of_singleton in Hn.
    destruct (Hnames o Ho) as [?|?]; congruence.
  - intros o [Ho|Ho]%elem_of_app; simpl.
    + destruct (Hnames o Ho) as [?|?]; [left|by right].
      apply elem_of_union. by right.
    + apply list_elem_of_singleton in Ho as ->. simpl.
      left. apply elem_of_union. left. by apply elem_of_singleton.
Qed.

Lemma classify_ops_names skip_directory extras_arg extra_packages entry :
  operation_names
    (classify_ops txn skip_directory extras_arg extra_packages entry) = []
  ∨ operation_names
      (classify_ops txn skip_directory extras_arg extra_packages entry)
    = [name entry.1].
Proof.
  unfold classify_ops, classify. destruct entry as [rp prio].
  destruct (installed_match txn rp) as [ip|] eqn:Hmatch; simpl.
  - apply installed_match_Some in Hmatch as [_ Hname].
    repeat case_match; simpl; right; by rewrite ?Hname.
  - repeat case_match; simpl; auto.
Qed.

Lemma classified_names_sublist skip_directory extras_arg extra_packages
    (l : list (Package Version * Z)) :
  operation_names
    (l ≫= classify_ops txn skip_directory extras_arg extra_packages)
  `sublist_of` (λ e : Package Version * Z, name e.1) <$> l.
Proof.
  induction l as [|entry l IH]; [done|].
  rewrite bind_cons, fmap_cons. unfold operation_names in *.
  rewrite fmap_app.
  destruct (classify_ops_names skip_directory extras_arg extra_packages
              entry) as [Hnames|Hnames];
    unfold operation_names in Hnames; rewrite Hnames; simpl.
  - by apply sublist_cons.
  - by apply sublist_skip.
Qed.

Lemma classified_in_sync skip_directory extras_arg extra_packages :
  in_sync
    (classified txn skip_directory extras_arg extra_packages initial_state).
Proof.
  unfold classified. apply foldl_invariant; [|apply in_sync_initial].
  intros; by apply classify_in_sync.
Qed.

Lemma classified_marks_in_result skip_directory extras_arg extra_packages n :
  n ∈ uninstalls
        (classified txn skip_directory extras_arg extra_packages
           initial_state) →
  n ∈ result_package_names txn.
Proof.
  rewrite classified_in_sync.
  intros (o & Ho & _ & <-)%elem_of_uninstalled_names.
  rewrite classified_operations in Ho. simpl in Ho.
  by eapply classified_in_result.
Qed.

Lemma classified_tidy skip_directory extras_arg extra_packages :
  NoDup ((λ e : Package Version * Z, name e.1) <$> result_packages txn) →
  tidy txn
    (classified txn skip_directory extras_arg extra_packages initial_state).
Proof.
  intros Hnodup. unfold tidy. rewrite classified_operations. simpl. split.
  - eapply sublist_NoDup; [done|]. apply classified_names_sublist.
  - intros o Ho. right. by eapply classified_in_result.
Qed.

Lemma sweep_installed_skip (current_package : Package Version) l st :
  (∀ ip, ip ∈ l → name ip ≠ name current_package) →
  foldl (sweep_installed current_package) st l = st.
Proof.
  induction l as [|ip l IH]; intros Hne; [done|]. simpl.
  unfold sweep_installed at 2.
  rewrite bool_decide_eq_false_2 by (apply Hne; left).
  apply IH. intros ip' Hip'. apply Hne. by right.
Qed.

Lemma sweep_installed_tidy (current_package : Package Version) l st :
  NoDup (name <$> l) →
  name current_package ∉ result_package_names txn →
  name current_package ∉ uninstalls st →
  tidy txn st →
  tidy txn (foldl (sweep_installed current_package) st l)
  ∧ uninstalls (foldl (sweep_installed current_package) st l)
    ⊆ {[name current_package]} ∪ uninstalls st.
Proof.
  intros Hnodup Hresult. revert st.
  induction l as [|ip l IH]; intros st Hmark Htidy; simpl.
  { split; [done|]. apply union_subseteq_r. }
  rewrite fmap_cons in Hnodup. apply NoDup_cons in Hnodup as [Hfresh Hl].
  unfold sweep_installed at 2 4. case_bool_decide as Hname; [|by apply IH].
  rewrite sweep_installed_skip.
  - split; [apply tidy_uninstall; by rewrite ?Hname|].
    simpl. by rewrite Hname.
  - intros ip' Hip' Hname'. apply Hfresh.
    rewrite Hname, <-Hname'. by apply list_elem_of_fmap_2.
Qed.

Lemma found_in_result (current_package : Package Version) :
  existsb
    (λ entry : Package Version * Z,
       bool_decide (name current_package = name entry.1))
    (result_packages txn) = false →
  name current_package ∉ result_package_names txn.
Proof.
  intros Hfound (entry & Hin & Hname)%elem_of_result_package_names.
  apply not_true_iff_false in Hfound. apply Hfound.
  apply existsb_exists. exists entry. rewrite <-list_elem_of_In.
  split; [done|]. by apply bool_decide_eq_true.
Qed.

Lemma swept_tidy l st :
  NoDup (name <$> installed_packages txn) →
  NoDup (name <$> l) →
  (∀ cp, cp ∈ l → name cp ∉ result_package_names txn →
         name cp ∉ uninstalls st) →
  tidy txn st →
  tidy txn (foldl (sweep txn) st l).
Proof.
  intros Hinstalled. revert st.
  induction l as [|cp l IH]; intros st Hnodup Hmarks Htidy; [done|].
  rewrite fmap_cons in Hnodup. apply NoDup_cons in Hnodup as [Hfresh Hl].
  simpl. unfold sweep at 2.
  destruct (existsb _ _) eqn:Hfound.
  { apply IH; [done| |done]. intros cp' Hcp'. apply Hmarks. by right. }
  apply found_in_result in Hfound.
  destruct (sweep_installed_tidy cp (installed_packages txn) st)
    as [Htidy' Hsub]; [done|done| |done|].
  { apply Hmarks; [left|done]. }
  apply IH; [done| |done].
  intros cp' Hcp' Hresult Hmark. apply Hsub in Hmark.
  apply elem_of_union in Hmark as [Hmark%elem_of_singleton|Hmark].
  - apply Hfresh. rewrite <-Hmark. by apply list_elem_of_fmap_2.
  - revert Hmark. apply Hmarks; [by right|done].
Qed.

Lemma synchronized_tidy st : tidy txn st → tidy txn (synchronized txn st).
Proof.
  intros Htidy. unfold synchronized. apply foldl_invariant; [|done].
  intros ip st' _ Htidy'. unfold synchronize_installed.
  case_bool_decide; [done|]. destruct (is_root txn ip); [done|].
  case_bool_decide; [done|]. case_bool_decide; [|done].
  by apply tidy_uninstall.
Qed.

Lemma accumulated_tidy with_uninstalls synchronize skip_directory extras_arg
    extra_packages :
  NoDup (name <$> current_packages txn) →
  NoDup ((λ e : Package Version * Z, name e.1) <$> result_packages txn) →
  NoDup (name <$> installed_packages txn) →
  tidy txn
    (accumulated txn with_uninstalls synchronize skip_directory extras_arg
       extra_packages).
Proof.
  intros Hcurrent Hresult Hinstalled.
  pose proof (classified_tidy skip_directory extras_arg extra_packages
                Hresult) as Htidy.
  unfold accumulated, removals. destruct with_uninstalls; [|done].
  assert (tidy txn
            (swept txn
               (classified txn skip_directory extras_arg extra_packages
                  initial_state))) as Hswept.
  { apply swept_tidy; [done..| |done].
    intros cp _ Hnot Hmark. apply Hnot.
    by eapply classified_marks_in_result. }
  destruct synchronize; [|done]. by apply synchronized_tidy.
Qed.
End Tidy.

(** ** The sort does not depend on the order of its input *)

Section SortUnique.
Context {Version : Type} `{!Collaborators Version}.

Lemma precedes_same_name (o1 o2 : Operation Version) :
  precedes o1 o2 → precedes o2 o1 → name (package o1) = name (package o2).
Proof.
  unfold precedes.
  intros [Hp|[Hp [Hn|[Hn _]]]] [Hq|[Hq [Hm|[Hm _]]]]; try done; exfalso.
  all: try (pose proof (priority_lt_trans _ _ _ Hp Hq) as Hpp;
            by rewrite priority_lt_irrefl in Hpp).
  all: try (rewrite Hq, priority_lt_irrefl in Hp; done).
  all: try (rewrite Hp, priority_lt_irrefl in Hq; done).
  all: try (pose proof (string_ltb_trans _ _ _ Hn Hm) as Hnn;
            by rewrite string_ltb_irrefl in Hnn).
  all: try (rewrite Hm, string_ltb_irrefl in Hn; done).
  all: try (rewrite Hn, string_ltb_irrefl in Hm; done).
Qed.

Lemma sorted_unique (ops1 ops2 : list (Operation Version)) :
  TotalVersionOrder →
  ops1 ≡ₚ ops2 →
  NoDup (operation_names ops1) →
  sorted operation_lt ops1 = sorted operation_lt ops2.
Proof.
  intros Horder Hperm Hnodup.
  apply (StronglySorted_unique_strong precedes).
  - intros o1 o2 Ho1 Ho2 H12 H21.
    rewrite sorted_Permutation in Ho1, Ho2.
    rewrite <-Hperm in Ho2.
    apply (NoDup_fmap_eq (λ o, name (package o)) ops1); [done..|].
    by apply precedes_same_name.
  - by apply sorted_operations_precede.
  - by apply sorted_operations_precede.
  - by rewrite !sorted_Permutation.
Qed.
End SortUnique.

(** ** The order of the result packages *)

Lemma existsb_Permutation {A} (f : A → bool) (l1 l2 : list A) :
  l1 ≡ₚ l2 → existsb f l1 = existsb f l2.
Proof.
  induction 1 as [|x l1 l2 _ IH|x y l|l1 l2 l3 _ IH1 _ IH2]; simpl.
  - done.
  - by rewrite IH.
  - by destruct (f x), (f y).
  - by rewrite IH1.
Qed.

Section ResultOrder.
Context {Version : Type} `{!Collaborators Version}.
Variables txn1 txn2 : Transaction Version.
Hypothesis same_current : current_packages txn1 = current_packages txn2.
Hypothesis same_installed :
  installed_packages txn1 = installed_packages txn2.
Hypothesis same_root : root_package txn1 = root_package txn2.
Hypothesis same_result : result_packages txn1 ≡ₚ result_packages txn2.

Lemma uninstalled_names_Permutation (ops1 ops2 : list (Operation Version)) :
  ops1 ≡ₚ ops2 → uninstalled_names ops1 = uninstalled_names ops2.
Proof.
  intros Hperm. unfold uninstalled_names, operation_names.
  by rewrite Hperm.
Qed.

Lemma similar_refl (st : State Version) : similar st st.
Proof. by split. Qed.

Lemma similar_uninstall (p : Package Version) st st' :
  similar st st' → similar (uninstall p st) (uninstall p st').
Proof.
  intros [Hops Hmarks]. split; simpl; [by rewrite Hops|by rewrite Hmarks].
Qed.

Lemma foldl_similar {B} (f g : State Version → B → State Version) l st st' :
  (∀ x st st', similar st st' → similar (f st x) (g st' x)) →
  similar st st' → similar (foldl f st l) (foldl g st' l).
Proof.
  intros Hstep. revert st st'.
  induction l as [|x l IH]; intros st st' Hsim; simpl; [done|].
  apply IH. by apply Hstep.
Qed.

Lemma same_result_package_names :
  result_package_names txn1 = result_package_names txn2.
Proof. unfold result_package_names. by rewrite same_result. Qed.

Lemma same_classify skip_directory extras_arg extra_packages st entry :
  classify txn1 skip_directory extras_arg extra_packages st entry
  = classify txn2 skip_directory extras_arg extra_packages st entry.
Proof. unfold classify, installed_match. by rewrite same_installed. Qed.

Lemma similar_classified skip_directory extras_arg extra_packages :
  similar
    (classified txn1 skip_directory extras_arg extra_packages initial_state)
    (classified txn2 skip_directory extras_arg extra_packages
       initial_state).
Proof.
  assert (operations
            (classified txn1 skip_directory extras_arg extra_packages
               initial_state)
          ≡ₚ operations
               (classified txn2 skip_directory extras_arg extra_packages
                  initial_state)) as Hops.
  { rewrite !classified_operations. simpl. rewrite same_result.
    erewrite list_bind_ext; [done| |done].
    intros entry. unfold classify_ops. by rewrite same_classify. }
  split; [done|].
  rewrite !classified_in_sync. by apply uninstalled_names_Permutation.
Qed.

Lemma similar_sweep st st' current_package :
  similar st st' →
  similar (sweep txn1 st current_package) (sweep txn2 st' current_package).
Proof.
  intros Hsim. unfold sweep.
  rewrite (existsb_Permutation _ _ _ same_result), same_installed.
  destruct (existsb _ _); [done|].
  apply foldl_similar; [|done].
  intros ip st1 st2 Hsim'. unfold sweep_installed.
  case_bool_decide; [by apply similar_uninstall|done].
Qed.

Lemma similar_synchronize_installed st st' ip :
  similar st st' →
  similar (synchronize_installed txn1 st ip)
    (synchronize_installed txn2 st' ip).
Proof.
  intros Hsim. unfold synchronize_installed, preserved_package_names, is_root.
  rewrite same_result_package_names, same_root, (proj2 Hsim).
  repeat case_match; try done; by apply similar_uninstall.
Qed.

Lemma similar_removals with_uninstalls synchronize st st' :
  similar st st' →
  similar (removals txn1 with_uninstalls synchronize st)
    (removals txn2 with_uninstalls synchronize st').
Proof.
  intros Hsim. unfold removals, swept, synchronized.
  destruct with_uninstalls; [|done].
  rewrite same_current, same_installed.
  assert (similar (foldl (sweep txn1) st (current_packages txn2))
            (foldl (sweep txn2) st' (current_packages txn2))) as Hswept.
  { apply foldl_similar; [|done]. intros; by apply similar_sweep. }
  destruct synchronize; [|done].
  apply foldl_similar; [|done].
  intros; by apply similar_synchronize_installed.
Qed.

Lemma similar_accumulated with_uninstalls synchronize skip_directory
    extras_arg extra_packages :
  similar
    (accumulated txn1 with_uninstalls synchronize skip_directory extras_arg
       extra_packages)
    (accumulated txn2 with_uninstalls synchronize skip_directory extras_arg
       extra_packages).
Proof.
  unfold accumulated. apply similar_removals, similar_classified.
Qed.

Lemma same_plan with_uninstalls synchronize skip_directory extras_arg :
  TotalVersionOrder →
  NoDup (name <$> current_packages txn1) →
  NoDup ((λ e : Package Version * Z, name e.1) <$> result_packages txn1) →
  NoDup (name <$> installed_packages txn1) →
  extra_package_names txn1 extras_arg = extra_package_names txn2 extras_arg →
  calculate_operations txn1 with_uninstalls synchronize skip_directory
    extras_arg
  = calculate_operations txn2 with_uninstalls synchronize skip_directory
      extras_arg.
Proof.
  intros Horder Hcurrent Hresult Hinstalled Hextras.
  unfold calculate_operations. rewrite Hextras.
  destruct (extra_package_names txn2 extras_arg) as [ep|]; [|done].
  f_equal. apply sorted_unique; [done| |].
  - apply similar_accumulated.
  - by apply accumulated_tidy.
Qed.
End ResultOrder.

Section FurtherProperties.
Context {Version : Type} `{!Collaborators Version}.

(** X1.  Every operation of a plan comes from the inputs: an install is
    about a result package (at its entry's priority and active or skipped as
    not required when nothing of that name is installed, skipped as already
    installed otherwise), an update leads from the installed match of a
    result package to that package at the entry's priority, and an
    uninstall is about a package of the installed list; updates and uninstalls
    are never skipped. *)
Theorem plan_operations_justified (txn : Transaction Version)
    with_uninstalls synchronize skip_directory extras_arg out :
  calculate_operations txn with_uninstalls synchronize skip_directory
    extras_arg = Returns out →
  Forall (justified txn) out.
Proof.
  intros (ep & _ & Hperm)%plan_accumulated.
  rewrite Hperm. apply accumulated_justified.
Qed.

(** X2.  With [with_uninstalls], every installed package that bears the name
    of a current package absent from the result is uninstalled, whatever the
    other flags are. *)
Theorem dropped_packages_uninstalled (txn : Transaction Version)
    synchronize skip_directory extras_arg out current_package ip :
  calculate_operations txn true synchronize skip_directory extras_arg
  = Returns out →
  current_package ∈ current_packages txn →
  name current_package ∉ result_package_names txn →
  ip ∈ installed_packages txn →
  name ip = name current_package →
  Uninstall ip uninstall_priority None ∈ out.
Proof.
  intros (ep & _ & Hperm)%plan_accumulated Hcp Hresult Hip Hname.
  rewrite Hperm. unfold accumulated, removals.
  pose proof (swept_uninstalls txn
                (classified txn skip_directory extras_arg ep initial_state)
                current_package ip Hcp Hresult Hip Hname) as Hswept.
  destruct synchronize; [|done].
  unfold synchronized.
  apply (foldl_invariant
           (λ st, Uninstall ip uninstall_priority None ∈ operations st));
    [|done].
  intros ip' st' _. apply synchronize_installed_keeps.
Qed.

(** X3.  With [with_uninstalls] and [synchronize], for every installed
    package whose name is not in the result, is not "pip" and is not the root
    package's, the plan uninstalls an installed package of that name: the
    package itself when the installed packages are name-unique. *)
Theorem unmanaged_packages_uninstalled (txn : Transaction Version)
    skip_directory extras_arg out ip :
  calculate_operations txn true true skip_directory extras_arg
  = Returns out →
  ip ∈ installed_packages txn →
  name ip ∉ result_package_names txn →
  name ip ≠ "pip"%string →
  (∀ root, root_package txn = Some root → name ip ≠ name root) →
  (∃ ip', ip' ∈ installed_packages txn ∧ name ip' = name ip
          ∧ Uninstall ip' uninstall_priority None ∈ out)
  ∧ (NoDup (name <$> installed_packages txn) →
     Uninstall ip uninstall_priority None ∈ out).
Proof.
  intros (ep & _ & Hperm)%plan_accumulated Hip Hresult Hpip Hroot.
  assert (is_root txn ip = false) as Hroot'.
  { unfold is_root. destruct (root_package txn) as [root|]; [|done].
    apply bool_decide_eq_false. by apply Hroot. }
  pose proof (synchronized_marks txn
                (swept txn
                   (classified txn skip_directory extras_arg ep
                      initial_state))
                ip Hip Hresult Hroot' Hpip) as Hmark.
  change (name ip
            ∈ uninstalls
                (accumulated txn true true skip_directory extras_arg ep))
    in Hmark.
  rewrite (accumulated_in_sync txn true true skip_directory extras_arg ep)
    in Hmark.
  apply elem_of_uninstalled_names in Hmark as (o & Ho & Hun & Hname).
  pose proof (accumulated_justified txn true true skip_directory
                extras_arg ep) as Hall.
  rewrite Forall_forall in Hall. specialize (Hall o Ho).
  destruct o as [| |ip' prio reason]; try done.
  simpl in Hall, Hname. destruct Hall as (Hip' & -> & ->).
  assert (∃ ip', ip' ∈ installed_packages txn ∧ name ip' = name ip
                 ∧ Uninstall ip' uninstall_priority None ∈ out) as Hex.
  { exists ip'. by rewrite Hperm. }
  split; [done|]. intros Hnodup.
  assert (ip' = ip) as <- by by eapply NoDup_fmap_eq.
  by rewrite Hperm.
Qed.

(** X4.  When the loops are over, the set [uninstalls] holds the names of
    the packages the accumulated operations uninstall, and no other name. *)
Theorem uninstalls_track_operations (txn : Transaction Version)
    with_uninstalls synchronize skip_directory extras_arg extra_packages n :
  n ∈ uninstalls
        (accumulated txn with_uninstalls synchronize skip_directory
           extras_arg extra_packages)
  ↔ ∃ o,
      o ∈ operations
            (accumulated txn with_uninstalls synchronize skip_directory
               extras_arg extra_packages)
      ∧ is_uninstall o = true ∧ name (package o) = n.
Proof.
  rewrite (accumulated_in_sync txn with_uninstalls synchronize
             skip_directory extras_arg extra_packages).
  apply elem_of_uninstalled_names.
Qed.

(** X5.  The synchronize sweep only appends uninstalls of installed
    packages whose name is not in the result and is not the root package's,
    and it never uninstalls a package called "pip", whether or not "pip" is
    in the result. *)
Theorem synchronize_sweep_spares_pip (txn : Transaction Version) st removed
    o :
  operations (synchronized txn st) = operations st ++ removed →
  o ∈ removed →
  ∃ ip, o = Uninstall ip uninstall_priority None
        ∧ ip ∈ installed_packages txn
        ∧ name ip ≠ "pip"%string
        ∧ (name ip ∉ result_package_names txn)
        ∧ ∀ root, root_package txn = Some root → name ip ≠ name root.
Proof.
  intros Hremoved Ho.
  destruct (synchronized_emitted txn st) as (removed' & Hops & Hall).
  rewrite Hremoved in Hops. apply app_inv_head in Hops as <-.
  rewrite Forall_forall in Hall.
  destruct (Hall o Ho) as (ip & -> & Hip & Hroot & Hkeep & Hresult).
  exists ip. repeat split; [done| |done|].
  - intros Hpip. apply Hkeep. unfold preserved_package_names.
    apply elem_of_difference. split; [|done]. by apply elem_of_singleton.
  - intros root Hsome. unfold is_root in Hroot. rewrite Hsome in Hroot.
    by apply bool_decide_eq_false in Hroot.
Qed.
(** X6.  In an environment with nothing installed (the default of
    [Transaction.__init__]), every operation of the plan is the install of a
    result package at its entry's priority, active or skipped as not
    required; no flag brings in an update or an uninstall. *)
Theorem nothing_installed_only_installs (txn : Transaction Version)
    with_uninstalls synchronize skip_directory extras_arg out :
  installed_packages txn = [] →
  calculate_operations txn with_uninstalls synchronize skip_directory
    extras_arg = Returns out →
  Forall
    (λ o, ∃ rp n reason,
       (rp, n) ∈ result_packages txn
       ∧ o = Install rp (Finite n) reason
       ∧ (reason = None ∨ reason = Some "Not required"%string))
    out.
Proof.
  intros Hnone (ep & _ & Hperm)%plan_accumulated.
  assert (∀ rp, installed_match txn rp = None) as Hmatch.
  { intros rp. unfold installed_match. by rewrite Hnone. }
  rewrite Hperm.
  eapply Forall_impl; [apply accumulated_justified|].
  intros [rp p reason|ip rp p reason|ip p reason]; simpl.
  - intros (n & Hin & [(_ & -> & Hreason)|(Hsome & _)]).
    + by exists rp, n, reason.
    + rewrite Hmatch in Hsome. by destruct Hsome.
  - intros (n & _ & Hsome & _). by rewrite Hmatch in Hsome.
  - rewrite Hnone. by intros [?%elem_of_nil _].
Qed.

(** X7.  [skip_directory] only matters for directory packages that are not
    installed: when every result package of source type "directory" has an
    installed package of its name, the flag does not change the outcome. *)
Theorem skip_directory_spares_installed (txn : Transaction Version)
    with_uninstalls synchronize extras_arg :
  (∀ rp n,
     (rp, n) ∈ result_packages txn →
     source_type rp = Some "directory"%string →
     ∃ ip, ip ∈ installed_packages txn ∧ name ip = name rp) →
  calculate_operations txn with_uninstalls synchronize true extras_arg
  = calculate_operations txn with_uninstalls synchronize false extras_arg.
Proof.
  intros Hinstalled. unfold calculate_operations.
  destruct (extra_package_names txn extras_arg) as [ep|]; [|done].
  do 3 f_equal. unfold accumulated. f_equal. unfold classified.
  generalize (initial_state (Version := Version)).
  assert (∀ entry st,
            entry ∈ result_packages txn →
            classify txn true extras_arg ep st entry
            = classify txn false extras_arg ep st entry) as Hstep.
  { intros [rp n] st Hin. unfold classify.
    destruct (installed_match txn rp) as [ip|] eqn:Hmatch; [done|].
    rewrite bool_decide_eq_false_2; [done|].
    intros Hdir. destruct (Hinstalled rp n Hin Hdir) as (ip & Hip & Hname).
    by destruct (installed_match_None _ _ _ Hmatch Hip). }
  clear Hinstalled.
  induction (result_packages txn) as [|entry l IH]; intros st; [done|].
  simpl. rewrite Hstep by left. apply IH.
  intros entry' st' Hin. apply Hstep. by right.
Qed.

(** X8.  Among name-unique result packages, a package of which nothing is
    installed gets one operation: its install at the entry's priority,
    skipped as not required when it is an unsolicited extra and active
    otherwise.  The exception is a directory package under
    [skip_directory], for which the plan has no operation at all. *)
Theorem new_package_planned (txn : Transaction Version)
    with_uninstalls synchronize skip_directory extras_arg extra_packages out
    rp n :
  NoDup ((λ e : Package Version * Z, name e.1) <$> result_packages txn) →
  (rp, n) ∈ result_packages txn →
  (∀ ip, ip ∈ installed_packages txn → name ip ≠ name rp) →
  extra_package_names txn extras_arg = Returns extra_packages →
  calculate_operations txn with_uninstalls synchronize skip_directory
    extras_arg = Returns out →
  filter (targets (name rp)) out
  = if skip_directory
       && bool_decide (source_type rp = Some "directory"%string)
    then []
    else [Install rp (Finite n)
            (if is_unsolicited_extra extras_arg extra_packages rp
             then Some "Not required"%string else None)].
Proof.
  intros Hnodup Hin Hnone Hep Hplan.
  assert (installed_match txn rp = None) as Hmatch.
  { destruct (installed_match txn rp) as [ip|] eqn:Hmatch; [|done].
    destruct (installed_match_Some _ _ _ Hmatch) as [Hip Hname].
    by destruct (Hnone ip). }
  pose proof (plan_for_result_entry _ _ _ _ _ _ Hplan (rp, n) _
                Hnodup Hin Hep) as Hperm. simpl in Hperm.
  destruct (skip_directory && _) eqn:Hskip.
  - rewrite classify_ops_skipped in Hperm by done.
    by apply Permutation_nil_r.
  - rewrite classify_ops_new in Hperm by done.
    by apply Permutation_singleton_r.
Qed.

(** X9.  Among name-unique result packages, a package that is no
    unsolicited extra and differs from its installed match according to
    [is_same_package_as] is updated even when the versions agree, provided
    the installed package has a source type or the result package does not
    come from a legacy index. *)
Theorem source_change_is_update (txn : Transaction Version)
    with_uninstalls synchronize skip_directory extras_arg extra_packages out
    rp n ip :
  NoDup ((λ e : Package Version * Z, name e.1) <$> result_packages txn) →
  (rp, n) ∈ result_packages txn →
  installed_match txn rp = Some ip →
  is_same_package_as rp ip = false →
  truthy (source_type ip) = true
  ∨ source_type rp ≠ Some "legacy"%string →
  extra_package_names txn extras_arg = Returns extra_packages →
  is_unsolicited_extra extras_arg extra_packages rp = false →
  calculate_operations txn with_uninstalls synchronize skip_directory
    extras_arg = Returns out →
  filter (targets (name rp)) out = [Update ip rp (Finite n) None].
Proof.
  intros Hnodup Hin Hmatch Hsame Hsource Hep Hsolicited Hplan.
  apply Permutation_singleton_r.
  rewrite (plan_for_result_entry _ _ _ _ _ _ Hplan (rp, n) _ Hnodup Hin Hep).
  rewrite (classify_ops_update _ _ _ _ rp n ip); [done..|].
  unfold update_required. rewrite Hsame. simpl. rewrite andb_true_r.
  apply orb_true_iff. right. apply orb_true_iff.
  destruct Hsource as [Htype|Hlegacy]; [by left|right].
  by apply bool_decide_eq_true.
Qed.

(** X10.  Among name-unique result packages, a package that is no
    unsolicited extra and whose installed match has its version and is the
    same package gets one operation: its install skipped as already
    installed, at the default install priority and not at the entry's. *)
Theorem same_package_already_installed (txn : Transaction Version)
    with_uninstalls synchronize skip_directory extras_arg extra_packages out
    rp n ip :
  NoDup ((λ e : Package Version * Z, name e.1) <$> result_packages txn) →
  (rp, n) ∈ result_packages txn →
  installed_match txn rp = Some ip →
  version rp = version ip →
  is_same_package_as rp ip = true →
  extra_package_names txn extras_arg = Returns extra_packages →
  is_unsolicited_extra extras_arg extra_packages rp = false →
  calculate_operations txn with_uninstalls synchronize skip_directory
    extras_arg = Returns out →
  filter (targets (name rp)) out
  = [Install rp install_priority (Some "Already installed"%string)].
Proof.
  intros Hnodup Hin Hmatch Hver Hsame Hep Hsolicited Hplan.
  apply Permutation_singleton_r.
  rewrite (plan_for_result_entry _ _ _ _ _ _ Hplan (rp, n) _ Hnodup Hin Hep).
  rewrite (classify_ops_installed _ _ _ _ rp n ip); [done..|].
  unfold update_required. rewrite Hsame, Hver, andb_false_r, orb_false_r.
  apply bool_decide_eq_false. by intros [].
Qed.
(** X11.  For name-unique current, result and installed packages, no two
    operations of the plan are about the same package name. *)
Theorem one_operation_per_name (txn : Transaction Version)
    with_uninstalls synchronize skip_directory extras_arg out :
  NoDup (name <$> current_packages txn) →
  NoDup ((λ e : Package Version * Z, name e.1) <$> result_packages txn) →
  NoDup (name <$> installed_packages txn) →
  calculate_operations txn with_uninstalls synchronize skip_directory
    extras_arg = Returns out →
  NoDup (operation_names out).
Proof.
  intros Hcurrent Hresult Hinstalled (ep & _ & Hperm)%plan_accumulated.
  unfold operation_names. rewrite Hperm.
  by apply (accumulated_tidy txn with_uninstalls synchronize skip_directory
              extras_arg ep).
Qed.

(** X12.  When versions are totally ordered, sorting operations about
    pairwise different names by the planner's key gives the same list in
    whatever order the operations were appended. *)
Theorem sorted_whatever_the_order (ops1 ops2 : list (Operation Version)) :
  TotalVersionOrder →
  ops1 ≡ₚ ops2 →
  NoDup (operation_names ops1) →
  sorted operation_lt ops1 = sorted operation_lt ops2.
Proof. intros Horder Hperm Hnodup. by apply sorted_unique. Qed.

(** X13.  For name-unique inputs and totally ordered versions, the outcome
    does not depend on the order of the result packages, as long as the
    extras resolver returns the same names for both orders. *)
Theorem result_order_irrelevant (current : list (Package Version))
    result1 result2 installed root with_uninstalls synchronize skip_directory
    extras_arg :
  TotalVersionOrder →
  result1 ≡ₚ result2 →
  NoDup (name <$> current) →
  NoDup ((λ e : Package Version * Z, name e.1) <$> result1) →
  NoDup (name <$> default [] installed) →
  extra_package_names (Transaction_init current result1 installed root)
    extras_arg
  = extra_package_names (Transaction_init current result2 installed root)
      extras_arg →
  calculate_operations (Transaction_init current result1 installed root)
    with_uninstalls synchronize skip_directory extras_arg
  = calculate_operations (Transaction_init current result2 installed root)
      with_uninstalls synchronize skip_directory extras_arg.
Proof.
  intros Horder Hperm Hcurrent Hresult Hinstalled Hextras.
  by apply same_plan.
Qed.

(** X14.  Without extras and without [with_uninstalls], the plan has no
    uninstall. *)
Theorem no_uninstall_without_extras (txn : Transaction Version)
    synchronize skip_directory out :
  calculate_operations txn false synchronize skip_directory None
  = Returns out →
  Forall (λ o, is_uninstall o = false) out.
Proof.
  intros Hplan.
  destruct (plan_Permutation _ _ _ _ _ _ Hplan)
    as (ep & removed & _ & Hperm & Hall).
  destruct removed as [|o' removed];
    [|by apply Forall_cons in Hall as [[? _] _]].
  rewrite app_nil_r in Hperm. rewrite Hperm. apply Forall_forall.
  intros o ([rp n] & Ho & _)%list_elem_of_bind. revert Ho.
  unfold classify_ops, classify, is_unsolicited_extra. simpl.
  repeat case_match; simpl; try by intros ?%elem_of_nil.
  all: by intros ->%list_elem_of_singleton.
Qed.

(** X15.  Without [synchronize], an uninstall of the plan is about the name of
    a result package (an unsolicited extra) or, under [with_uninstalls],
    about the name of a current package: installed packages known to neither
    list are left alone. *)
Theorem unknown_packages_kept_without_synchronize (txn : Transaction Version)
    with_uninstalls skip_directory extras_arg out :
  calculate_operations txn with_uninstalls false skip_directory extras_arg
  = Returns out →
  Forall
    (λ o, is_uninstall o = true →
          name (package o) ∈ result_package_names txn
          ∨ (with_uninstalls = true
             ∧ ∃ cp, cp ∈ current_packages txn
                     ∧ name cp = name (package o)))
    out.
Proof.
  intros (ep & _ & Hperm)%plan_accumulated. rewrite Hperm.
  unfold accumulated, removals.
  destruct with_uninstalls.
  - destruct (swept_emitted txn
                (classified txn skip_directory extras_arg ep initial_state))
      as (removed & -> & Hall).
    rewrite classified_operations. simpl.
    apply Forall_app. split.
    + apply Forall_forall. intros o Ho _. left.
      by eapply classified_in_result.
    + eapply Forall_impl; [done|].
      intros o (ip & cp & -> & _ & Hcp & Hname & _) _. right.
      split; [done|]. by exists cp.
  - rewrite classified_operations. simpl.
    apply Forall_forall. intros o Ho _. left.
    by eapply classified_in_result.
Qed.

(** X16.  Among name-unique result packages, an unsolicited extra with an
    installed match gets one operation, the uninstall of that match, whatever
    the versions and [with_uninstalls] are. *)
Theorem unsolicited_extra_uninstalled (txn : Transaction Version)
    with_uninstalls synchronize skip_directory extras_arg extra_packages out
    rp n ip :
  NoDup ((λ e : Package Version * Z, name e.1) <$> result_packages txn) →
  (rp, n) ∈ result_packages txn →
  installed_match txn rp = Some ip →
  extra_package_names txn extras_arg = Returns extra_packages →
  is_unsolicited_extra extras_arg extra_packages rp = true →
  calculate_operations txn with_uninstalls synchronize skip_directory
    extras_arg = Returns out →
  filter (targets (name rp)) out = [Uninstall ip uninstall_priority None].
Proof.
  intros Hnodup Hin Hmatch Hep Hunsolicited Hplan.
  apply Permutation_singleton_r.
  rewrite (plan_for_result_entry _ _ _ _ _ _ Hplan (rp, n) _ Hnodup Hin Hep).
  by rewrite (classify_ops_unsolicited _ _ _ _ rp n ip).
Qed.
End FurtherProperties.

(** * The scenarios and the claims at concrete inputs *)

Section Scenarios.
#[local] Existing Instance reference_collaborators.

Example scenario_update :
  calculate_operations
    (Transaction_init [pkg "a" 1 None None false]
       [(pkg "a" 2 None None false, 0)]
       (Some [pkg "a" 1 None None false]) None)
    true false false None
  = Returns [Update (pkg "a" 1 None None false) (pkg "a" 2 None None false)
               (Finite 0) None].
Proof. vm_compute. reflexivity. Qed.

Example scenario_install :
  calculate_operations
    (Transaction_init [] [(pkg "b" 1 None None false, 0)] None None)
    true false false None
  = Returns [Install (pkg "b" 1 None None false) (Finite 0) None].
Proof. vm_compute. reflexivity. Qed.

Example scenario_uninstall :
  calculate_operations
    (Transaction_init [pkg "c" 1 None None false] []
       (Some [pkg "c" 1 None None false]) None)
    true false false None
  = Returns [Uninstall (pkg "c" 1 None None false) PosInf None].
Proof. vm_compute. reflexivity. Qed.

(** Uninstalls sort first, then priority 10 before priority 5, whatever the
    order of the result list. *)
Example scenario_ordering :
  calculate_operations
    (Transaction_init [pkg "z" 1 None None false]
       [(pkg "m" 1 None None false, 5); (pkg "k" 1 None None false, 10);
        (pkg "b" 3 None None false, 5)]
       (Some [pkg "z" 1 None None false]) None)
    true true false None
  = Returns [Uninstall (pkg "z" 1 None None false) PosInf None;
             Install (pkg "k" 1 None None false) (Finite 10) None;
             Install (pkg "b" 3 None None false) (Finite 5) None;
             Install (pkg "m" 1 None None false) (Finite 5) None].
Proof. vm_compute. reflexivity. Qed.

Lemma required_by_empty (packages : list (Package Z)) :
  required_by packages ∅ = ∅.
Proof.
  unfold required_by. induction packages as [|p l IH]; [done|].
  rewrite fmap_cons, union_list_cons, IH.
  rewrite bool_decide_eq_false_2 by apply not_elem_of_empty.
  apply union_empty_l_L.
Qed.

Lemma extras_closure_empty fuel (packages : list (Package Z)) :
  extras_closure fuel packages ∅ = ∅.
Proof.
  induction fuel as [|fuel IH]; simpl; [done|].
  by rewrite required_by_empty, union_empty_l_L.
Qed.

Lemma reference_extras_closure_empty (packages : list (Package Z))
    (extras_map : gmap string (list string)) :
  reference_get_extra_package_names packages extras_map ∅ = ∅.
Proof.
  unfold reference_get_extra_package_names, extra_seeds.
  rewrite elements_empty. apply extras_closure_empty.
Qed.

Lemma reference_version_order : TotalVersionOrder.
Proof.
  unfold TotalVersionOrder. simpl. repeat split.
  - intros v. apply Z.ltb_irrefl.
  - intros a b c. rewrite !Z.ltb_lt. lia.
  - intros a b Hne. rewrite !Z.ltb_lt. lia.
Qed.
(** ** C1 *)

(** With [synchronize], a current package called "pip" that left the result
    is uninstalled by the sweep over the current packages, and so is the
    installed package bearing the root package's name: the claim as stated
    fails on both counts. *)
Lemma dropped_pip_and_root_uninstalled :
  calculate_operations
    (Transaction_init [project; pip] [] (Some [project; pip]) (Some project))
    true true false None
  = Returns [Uninstall pip PosInf None; Uninstall project PosInf None]
  ∧ "pip"%string
      ∉ result_package_names
          (Transaction_init [project; pip] [] (Some [project; pip])
             (Some project)).
Proof.
  split; [vm_compute; reflexivity|].
  apply (bool_decide_unpack _). vm_compute. exact I.
Qed.

(** The project itself is installed, current and in the result, and "pip"
    is installed: the synchronize sweep removes the unmanaged package and
    keeps both. *)
Lemma protected_names_kept_witness :
  calculate_operations
    (Transaction_init [project] [(project, 0); (lib1, 0)]
       (Some [pip; project; lib1; junk]) (Some project))
    true true false None
  = Returns [Uninstall junk PosInf None;
             Install lib1 (Finite 0) (Some "Already installed"%string);
             Install project (Finite 0) (Some "Already installed"%string)]
  ∧ (∀ o,
       o ∈ [Uninstall junk PosInf None;
            Install lib1 (Finite 0) (Some "Already installed"%string);
            Install project (Finite 0) (Some "Already installed"%string)] →
       is_uninstall o = true → name (package o) ≠ name project).
Proof.
  split; [vm_compute; reflexivity|].
  refine (protected_names_kept
            (Transaction_init [project] [(project, 0); (lib1, 0)]
               (Some [pip; project; lib1; junk]) (Some project))
            true true false None
            [Uninstall junk PosInf None;
             Install lib1 (Finite 0) (Some "Already installed"%string);
             Install project (Finite 0) (Some "Already installed"%string)]
            (name project) _ _ _ _).
  - vm_compute. reflexivity.
  - right. exists project. split; reflexivity.
  - intros ep rp prio _ _ _. reflexivity.
  - intros _ cp _ _. apply (bool_decide_unpack _). vm_compute. exact I.
Defined.

(** ** C2 *)

(** An installed optional package whose extra was not requested is
    uninstalled although [with_uninstalls] is off and the package is
    installed in the very version of the result. *)
Lemma unsolicited_extra_is_no_noop :
  calculate_operations
    (Transaction_init [] [(opt1, 0)] (Some [opt1]) (Some project))
    false false false (Some ∅)
  = Returns [Uninstall opt1 PosInf None]
  ∧ is_same_package_as opt1 opt1 = true.
Proof. split; vm_compute; reflexivity. Qed.

Lemma nothing_to_do_witness :
  calculate_operations
    (Transaction_init [junk] [(lib1, 4); (opt1, 2)] (Some [opt1; lib1; junk])
       (Some project))
    false true false None
  = Returns [Install lib1 (Finite 0) (Some "Already installed"%string);
             Install opt1 (Finite 0) (Some "Already installed"%string)]
  ∧ Forall
      (λ o, ∃ rp prio,
         (rp, prio) ∈ [(lib1, 4); (opt1, 2)]
         ∧ o = Install rp (Finite 0) (Some "Already installed"%string))
      [Install lib1 (Finite 0) (Some "Already installed"%string);
       Install opt1 (Finite 0) (Some "Already installed"%string)].
Proof.
  split; [vm_compute; reflexivity|].
  refine (nothing_to_do
            (Transaction_init [junk] [(lib1, 4); (opt1, 2)]
               (Some [opt1; lib1; junk]) (Some project))
            true false None
            [Install lib1 (Finite 0) (Some "Already installed"%string);
             Install opt1 (Finite 0) (Some "Already installed"%string)]
            _ _ _ _).
  - apply (bool_decide_unpack _). vm_compute. exact I.
  - intros rp prio Hin. simpl in Hin.
    apply elem_of_cons in Hin as [[= -> ->]|Hin].
    { exists lib1. repeat split. right. left. }
    apply list_elem_of_singleton in Hin as [= -> ->].
    exists opt1. repeat split. left.
  - intros ep rp prio _ _. reflexivity.
  - vm_compute. reflexivity.
Defined.

(** ** C3 *)


(** ** C4 *)

(** The installed version differs from the resolved one, but the package is
    an extra nobody requested: the plan has its uninstall and no update. *)
Lemma unsolicited_extra_is_not_updated :
  calculate_operations
    (Transaction_init [] [(opt2, 5)] (Some [opt1]) (Some project))
    true false false (Some ∅)
  = Returns [Uninstall opt1 PosInf None]
  ∧ name opt2 = name opt1
  ∧ version opt2 ≠ version opt1.
Proof.
  split; [vm_compute; reflexivity|]. split; [reflexivity|].
  simpl. lia.
Qed.

Lemma version_change_is_one_update_witness :
  calculate_operations
    (Transaction_init [lib1] [(lib2, 7); (opt1, 2)] (Some [lib1; junk]) None)
    true false false None
  = Returns [Update lib1 lib2 (Finite 7) None; Install opt1 (Finite 2) None]
  ∧ filter (targets (name lib2))
      [Update lib1 lib2 (Finite 7) None; Install opt1 (Finite 2) None]
    = [Update lib1 lib2 (Finite 7) None].
Proof.
  split; [vm_compute; reflexivity|].
  refine (version_change_is_one_update
            (Transaction_init [lib1] [(lib2, 7); (opt1, 2)]
               (Some [lib1; junk]) None)
            true false false None ∅
            [Update lib1 lib2 (Finite 7) None; Install opt1 (Finite 2) None]
            lib2 7 lib1 _ _ _ _ _ _ _).
  - apply (bool_decide_unpack _). vm_compute. exact I.
  - simpl. left.
  - vm_compute. reflexivity.
  - simpl. lia.
  - reflexivity.
  - reflexivity.
  - vm_compute. reflexivity.
Defined.

(** ** C5 *)

(** With [skip_directory], an optional directory package that is not
    installed gets no operation at all, not even a skipped install. *)
Lemma skipped_directory_extra_not_reported :
  calculate_operations
    (Transaction_init [] [(local_opt, 5)] None (Some project))
    true false true (Some ∅)
  = Returns []
  ∧ optional local_opt = true.
Proof. split; vm_compute; reflexivity. Qed.

Lemma unselected_extras_excluded_witness :
  calculate_operations
    (Transaction_init [] [(local_opt, 5); (opt2, 7)] (Some [opt1])
       (Some project))
    true false false (Some ∅)
  = Returns [Uninstall opt1 PosInf None;
             Install local_opt (Finite 5) (Some "Not required"%string)]
  ∧ Uninstall opt1 PosInf None
      ∈ [Uninstall opt1 PosInf None;
         Install local_opt (Finite 5) (Some "Not required"%string)]
  ∧ Install local_opt (Finite 5) (Some "Not required"%string)
      ∈ [Uninstall opt1 PosInf None;
         Install local_opt (Finite 5) (Some "Not required"%string)].
Proof.
  split; [vm_compute; reflexivity|]. split.
  - destruct (unselected_extras_excluded
                (Transaction_init [] [(local_opt, 5); (opt2, 7)]
                   (Some [opt1]) (Some project))
                true false false
                [Uninstall opt1 PosInf None;
                 Install local_opt (Finite 5) (Some "Not required"%string)]
                project opt2 7) as [Hinstalled _].
    + reflexivity.
    + apply reference_extras_closure_empty.
    + simpl. right. left.
    + reflexivity.
    + vm_compute. reflexivity.
    + destruct Hinstalled as (ip & Hmatch & _ & _ & Hout).
      { exists opt1. split; [simpl; left|reflexivity]. }
      vm_compute in Hmatch. by injection Hmatch as <-.
  - destruct (unselected_extras_excluded
                (Transaction_init [] [(local_opt, 5); (opt2, 7)]
                   (Some [opt1]) (Some project))
                true false false
                [Uninstall opt1 PosInf None;
                 Install local_opt (Finite 5) (Some "Not required"%string)]
                project local_opt 5) as [_ Hnew].
    + reflexivity.
    + apply reference_extras_closure_empty.
    + simpl. left.
    + reflexivity.
    + vm_compute. reflexivity.
    + apply Hnew.
      * intros ip Hip. simpl in Hip.
        apply list_elem_of_singleton in Hip as ->. done.
      * intros [Hskip _]. done.
Defined.

(** ** C7 *)

Lemma plan_sorted_witness :
  calculate_operations
    (Transaction_init [junk] [(opt1, 5); (lib2, 10); (lib1_legacy, 5)]
       (Some [junk]) None)
    true true false None
  = Returns [Uninstall junk PosInf None; Install lib2 (Finite 10) None;
             Install lib1_legacy (Finite 5) None;
             Install opt1 (Finite 5) None]
  ∧ StronglySorted precedes
      [Uninstall junk PosInf None; Install lib2 (Finite 10) None;
       Install lib1_legacy (Finite 5) None; Install opt1 (Finite 5) None].
Proof.
  split; [vm_compute; reflexivity|].
  refine (proj1
            (plan_sorted
               (Transaction_init [junk]
                  [(opt1, 5); (lib2, 10); (lib1_legacy, 5)] (Some [junk])
                  None)
               true true false None
               [Uninstall junk PosInf None; Install lib2 (Finite 10) None;
                Install lib1_legacy (Finite 5) None;
                Install opt1 (Finite 5) None]
               reference_version_order _)).
  vm_compute. reflexivity.
Defined.

(** ** C8 *)

Lemma sweeps_disjoint_from_classification_witness :
  is_uninstall (Uninstall junk PosInf None) = true
  ∧ (name junk
       ∉ result_package_names
           (Transaction_init [junk] [(lib2, 5)] (Some [junk; lib1]) None))
  ∧ (name lib2
       ∈ result_package_names
           (Transaction_init [junk] [(lib2, 5)] (Some [junk; lib1]) None))
  ∧ name junk ≠ name lib2.
Proof.
  apply (sweeps_disjoint_from_classification
           (Transaction_init [junk] [(lib2, 5)] (Some [junk; lib1]) None)
           true false false None ∅ [Uninstall junk PosInf None]
           (Uninstall junk PosInf None) (Update lib1 lib2 (Finite 5) None)).
  - vm_compute. reflexivity.
  - left.
  - vm_compute. left.
Defined.

(** ** C9 *)

Lemma uninstall_without_with_uninstalls_witness :
  ∃ (txn : Transaction Z) synchronize skip_directory selected out rp prio ip,
    calculate_operations txn false synchronize skip_directory (Some selected)
    = Returns out
    ∧ (rp, prio) ∈ result_packages txn
    ∧ optional rp = true
    ∧ installed_match txn rp = Some ip
    ∧ Uninstall ip uninstall_priority None ∈ out.
Proof.
  apply (uninstall_without_with_uninstalls 1).
  intros packages extras_map. apply reference_extras_closure_empty.
Defined.
End Scenarios.

(** * The further properties at concrete inputs *)

Section FurtherScenarios.
#[local] Existing Instance reference_collaborators.

Lemma busy_plan :
  calculate_operations busy true true false (Some ∅)
  = Returns [Uninstall junk PosInf None; Uninstall opt2 PosInf None;
             Update lib1 lib2 (Finite 7) None;
             Install local_opt (Finite 4) (Some "Not required"%string)].
Proof. vm_compute. reflexivity. Qed.

Lemma plan_operations_justified_witness :
  Forall (justified busy)
    [Uninstall junk PosInf None; Uninstall opt2 PosInf None;
     Update lib1 lib2 (Finite 7) None;
     Install local_opt (Finite 4) (Some "Not required"%string)].
Proof.
  refine (plan_operations_justified busy true true false (Some ∅) _ _).
  apply busy_plan.
Defined.

Lemma dropped_packages_uninstalled_witness :
  Uninstall junk PosInf None
  ∈ [Uninstall junk PosInf None; Uninstall opt2 PosInf None;
     Update lib1 lib2 (Finite 7) None;
     Install local_opt (Finite 4) (Some "Not required"%string)].
Proof.
  refine (dropped_packages_uninstalled busy true false (Some ∅) _ junk junk
            _ _ _ _ _).
  - apply busy_plan.
  - simpl. right. left.
  - apply (bool_decide_unpack _). vm_compute. exact I.
  - simpl. right. left.
  - reflexivity.
Defined.

Lemma unmanaged_packages_uninstalled_witness :
  (∃ ip', ip' ∈ [pip; project; lib1; junk] ∧ name ip' = name junk
          ∧ Uninstall ip' PosInf None
            ∈ [Uninstall junk PosInf None;
               Install lib1 (Finite 0) (Some "Already installed"%string)])
  ∧ (NoDup (name <$> [pip; project; lib1; junk]) →
     Uninstall junk PosInf None
     ∈ [Uninstall junk PosInf None;
        Install lib1 (Finite 0) (Some "Already installed"%string)]).
Proof.
  refine (unmanaged_packages_uninstalled
            (Transaction_init [] [(lib1, 0)]
               (Some [pip; project; lib1; junk]) (Some project))
            false None
            [Uninstall junk PosInf None;
             Install lib1 (Finite 0) (Some "Already installed"%string)]
            junk _ _ _ _ _).
  - vm_compute. reflexivity.
  - simpl. do 3 right. left.
  - apply (bool_decide_unpack _). vm_compute. exact I.
  - discriminate.
  - intros root [= <-]. discriminate.
Defined.

(** "pip" is in the result and installed: the sweep removes the unmanaged
    package only. *)
Lemma synchronize_sweep_spares_pip_witness :
  ∃ ip, Uninstall junk PosInf None = Uninstall ip uninstall_priority None
        ∧ ip ∈ [pip; junk]
        ∧ name ip ≠ "pip"%string
        ∧ (name ip
             ∉ result_package_names
                 (Transaction_init [] [(pip, 0)] (Some [pip; junk]) None))
        ∧ ∀ root : Package Z, None = Some root → name ip ≠ name root.
Proof.
  refine (synchronize_sweep_spares_pip
            (Transaction_init [] [(pip, 0)] (Some [pip; junk]) None)
            initial_state [Uninstall junk PosInf None]
            (Uninstall junk PosInf None) _ _).
  - vm_compute. reflexivity.
  - left.
Defined.

Lemma nothing_installed_only_installs_witness :
  Forall
    (λ o, ∃ rp n reason,
       (rp, n) ∈ [(lib2, 7); (local_opt, 4)]
       ∧ o = Install rp (Finite n) reason
       ∧ (reason = None ∨ reason = Some "Not required"%string))
    [Install lib2 (Finite 7) None;
     Install local_opt (Finite 4) (Some "Not required"%string)].
Proof.
  refine (nothing_installed_only_installs
            (Transaction_init [junk] [(lib2, 7); (local_opt, 4)] None
               (Some project))
            true true false (Some ∅) _ _ _).
  - reflexivity.
  - vm_compute. reflexivity.
Defined.

Lemma skip_directory_spares_installed_witness :
  calculate_operations
    (Transaction_init [] [(local_opt, 4); (lib2, 7)] (Some [local_old; lib1])
       None)
    true false true None
  = calculate_operations
      (Transaction_init [] [(local_opt, 4); (lib2, 7)]
         (Some [local_old; lib1]) None)
      true false false None.
Proof.
  refine (skip_directory_spares_installed
            (Transaction_init [] [(local_opt, 4); (lib2, 7)]
               (Some [local_old; lib1]) None)
            true false None _).
  intros rp n Hin Hdir. simpl in Hin.
  apply elem_of_cons in Hin as [[= -> ->]|Hin].
  { exists local_old. split; [left|reflexivity]. }
  apply list_elem_of_singleton in Hin as [= -> ->]. discriminate.
Defined.

Lemma new_package_planned_witness :
  filter (targets (name local_opt))
    [Uninstall junk PosInf None; Uninstall opt2 PosInf None;
     Update lib1 lib2 (Finite 7) None;
     Install local_opt (Finite 4) (Some "Not required"%string)]
  = [Install local_opt (Finite 4) (Some "Not required"%string)].
Proof.
  refine (new_package_planned busy true true false (Some ∅) ∅ _ local_opt 4
            _ _ _ _ _).
  - apply (bool_decide_unpack _). vm_compute. exact I.
  - simpl. do 2 right. left.
  - intros ip Hip. simpl in Hip.
    rewrite !elem_of_cons, elem_of_nil in Hip.
    destruct Hip as [->|[->|[->|[->|[->|[]]]]]]; discriminate.
  - vm_compute. reflexivity.
  - apply busy_plan.
Defined.

Lemma source_change_is_update_witness :
  version lib1_git = version lib1
  ∧ filter (targets (name lib1_git)) [Update lib1 lib1_git (Finite 7) None]
    = [Update lib1 lib1_git (Finite 7) None].
Proof.
  split; [reflexivity|].
  refine (source_change_is_update
            (Transaction_init [] [(lib1_git, 7)] (Some [lib1]) None)
            true false false None ∅ _ lib1_git 7 lib1 _ _ _ _ _ _ _ _).
  - apply (bool_decide_unpack _). vm_compute. exact I.
  - simpl. left.
  - vm_compute. reflexivity.
  - vm_compute. reflexivity.
  - right. discriminate.
  - reflexivity.
  - reflexivity.
  - vm_compute. reflexivity.
Defined.

Lemma same_package_already_installed_witness :
  filter (targets (name lib1))
    [Install lib1 (Finite 0) (Some "Already installed"%string);
     Install opt1 (Finite 0) (Some "Already installed"%string)]
  = [Install lib1 (Finite 0) (Some "Already installed"%string)].
Proof.
  refine (same_package_already_installed
            (Transaction_init [junk] [(lib1, 4); (opt1, 2)]
               (Some [opt1; lib1; junk]) (Some project))
            false true false None ∅ _ lib1 4 lib1 _ _ _ _ _ _ _ _).
  - apply (bool_decide_unpack _). vm_compute. exact I.
  - simpl. left.
  - vm_compute. reflexivity.
  - reflexivity.
  - vm_compute. reflexivity.
  - reflexivity.
  - reflexivity.
  - vm_compute. reflexivity.
Defined.

Lemma one_operation_per_name_witness :
  NoDup
    (operation_names
       [Uninstall junk PosInf None; Uninstall opt2 PosInf None;
        Update lib1 lib2 (Finite 7) None;
        Install local_opt (Finite 4) (Some "Not required"%string)]).
Proof.
  refine (one_operation_per_name busy true true false (Some ∅) _ _ _ _ _).
  - apply (bool_decide_unpack _). vm_compute. exact I.
  - apply (bool_decide_unpack _). vm_compute. exact I.
  - apply (bool_decide_unpack _). vm_compute. exact I.
  - apply busy_plan.
Defined.

Lemma sorted_whatever_the_order_witness :
  sorted operation_lt
    [Install lib2 (Finite 7) None; Uninstall junk PosInf None]
  = sorted operation_lt
      [Uninstall junk PosInf None; Install lib2 (Finite 7) None].
Proof.
  refine (sorted_whatever_the_order _ _ reference_version_order _ _).
  - apply Permutation_swap.
  - apply (bool_decide_unpack _). vm_compute. exact I.
Defined.

Lemma result_order_irrelevant_witness :
  calculate_operations
    (Transaction_init [lib1; junk] [(lib2, 7); (opt1, 2); (local_opt, 4)]
       (Some [lib1; junk; pip; project; opt2]) (Some project))
    true true false (Some ∅)
  = calculate_operations
      (Transaction_init [lib1; junk] [(local_opt, 4); (lib2, 7); (opt1, 2)]
         (Some [lib1; junk; pip; project; opt2]) (Some project))
      true true false (Some ∅).
Proof.
  refine (result_order_irrelevant [lib1; junk]
            [(lib2, 7); (opt1, 2); (local_opt, 4)]
            [(local_opt, 4); (lib2, 7); (opt1, 2)]
            (Some [lib1; junk; pip; project; opt2]) (Some project)
            true true false (Some ∅) reference_version_order _ _ _ _ _).
  - symmetry. apply (Permutation_cons_append [(lib2, 7); (opt1, 2)]).
  - apply (bool_decide_unpack _). vm_compute. exact I.
  - apply (bool_decide_unpack _). vm_compute. exact I.
  - apply (bool_decide_unpack _). vm_compute. exact I.
  - vm_compute. reflexivity.
Defined.

Lemma no_uninstall_without_extras_witness :
  Forall (λ o, is_uninstall o = false)
    [Update lib1 lib2 (Finite 7) None; Install local_opt (Finite 4) None;
     Update opt2 opt1 (Finite 2) None].
Proof.
  refine (no_uninstall_without_extras busy true false _ _).
  vm_compute. reflexivity.
Defined.

Lemma unknown_packages_kept_without_synchronize_witness :
  Forall
    (λ o, is_uninstall o = true →
          name (package o) ∈ result_package_names busy
          ∨ (true = true
             ∧ ∃ cp, cp ∈ [lib1; junk] ∧ name cp = name (package o)))
    [Uninstall junk PosInf None; Uninstall opt2 PosInf None;
     Update lib1 lib2 (Finite 7) None;
     Install local_opt (Finite 4) (Some "Not required"%string)].
Proof.
  refine (unknown_packages_kept_without_synchronize busy true false
            (Some ∅) _ _).
  vm_compute. reflexivity.
Defined.

Lemma unsolicited_extra_uninstalled_witness :
  filter (targets (name opt1))
    [Uninstall junk PosInf None; Uninstall opt2 PosInf None;
     Update lib1 lib2 (Finite 7) None;
     Install local_opt (Finite 4) (Some "Not required"%string)]
  = [Uninstall opt2 PosInf None].
Proof.
  refine (unsolicited_extra_uninstalled busy true true false (Some ∅) ∅ _
            opt1 2 opt2 _ _ _ _ _ _).
  - apply (bool_decide_unpack _). vm_compute. exact I.
  - simpl. right. left.
  - vm_compute. reflexivity.
  - vm_compute. reflexivity.
  - vm_compute. reflexivity.
  - apply busy_plan.
Defined.
End FurtherScenarios.
